(** * Provision-ISR alarm server: a shallow embedding of [alarm_server.py]

    The first part follows the Python module top-down:

    - text ([str]) is a list of Unicode code points, [bytes] a byte string;
    - a [datetime.time] is the record of its four fields, compared the way
      CPython compares naive times (lexicographically on the field tuple);
    - an [xml.etree.ElementTree.Element] is a rose tree;
    - coroutines run in an exception-and-trace monad [io]: the trace keeps
      every clock reading, every outbound incident request, every payload
      written to the peer and the closing of the connection, in order.
      Calls to [logging] are not part of the trace.

    What the module takes from its libraries and cannot be read off its own
    text (the XML parser, Unicode case mapping, the UTF-8 codec) is collected
    in the record [platform]; what it takes from the outside world (the wall
    clock, the paging service, the peer's socket) in the record [world].
    Every theorem holds for all platforms and worlds, under the hypotheses
    it states.

    The second part states and proves the properties C1 to C10 of the
    specification, each followed by its run on a concrete input.  The third
    part proves further properties of the module: of the window and its
    parsing, of the construction of the handler, of the dispatch of
    incidents, of the HTTP framing, of the splitter and of the connection
    in any world. *)

From Stdlib Require Import String Ascii List PeanoNat NArith Lia Bool.
Import ListNotations.

Set Implicit Arguments.

(** ** Text *)

Definition codepoint := N.
Definition str := list codepoint.
Definition bytes := string.
Bind Scope string_scope with bytes.

(** A Python [str] literal with ASCII content. *)
Definition lit (s : string) : str := map N_of_ascii (list_ascii_of_string s).

Definition str_eqb (a b : str) : bool :=
  if list_eq_dec N.eq_dec a b then true else false.

(** [a.startswith(p)] on text. *)
Fixpoint startswith (p s : str) : bool :=
  match p, s with
  | [], _ => true
  | _ :: _, [] => false
  | x :: p', y :: s' => N.eqb x y && startswith p' s'
  end.

(** [s.find(needle)]: index of the first occurrence, [None] for Python's -1. *)
Fixpoint str_find (needle s : str) : option nat :=
  if startswith needle s then Some 0
  else match s with
       | [] => None
       | _ :: s' => option_map S (str_find needle s')
       end.

(** [needle in s]. *)
Definition str_in (needle s : str) : bool :=
  match str_find needle s with Some _ => true | None => false end.

(** [x in l] for a list of strings. *)
Definition list_in (x : str) (l : list str) : bool := existsb (str_eqb x) l.

(** ** [datetime.time] and [datetime.datetime] *)

Record time := mktime { hour : N; minute : N; second : N; microsecond : N }.

Record datetime := mkdatetime { year : N; month : N; day : N; time_of : time }.

(** CPython's [time._cmp] for naive times: tuple comparison of
    [(hour, minute, second, microsecond)]. *)
Definition time_cmp (a b : time) : comparison :=
  match N.compare (hour a) (hour b) with
  | Eq => match N.compare (minute a) (minute b) with
          | Eq => match N.compare (second a) (second b) with
                  | Eq => N.compare (microsecond a) (microsecond b)
                  | c => c
                  end
          | c => c
          end
  | c => c
  end.

Definition time_leb (a b : time) : bool :=
  match time_cmp a b with Gt => false | _ => true end.
Definition time_ltb (a b : time) : bool :=
  match time_cmp a b with Lt => true | _ => false end.
Definition time_geb (a b : time) : bool := time_leb b a.

(** The class invariant of [datetime.time]. *)
Definition valid_time (t : time) : Prop :=
  (hour t < 24 /\ minute t < 60 /\ second t < 60 /\ microsecond t < 1000000)%N.

(** The instant of the day a time denotes, in microseconds after midnight. *)
Definition micros (t : time) : N :=
  (((hour t * 60 + minute t) * 60 + second t) * 1000000 + microsecond t)%N.

(** ** [PagerDutyTrigger] *)

Definition is_digit (c : codepoint) : bool := (48 <=? c)%N && (c <=? 57)%N.
Definition digit_val (c : codepoint) : N := (c - 48)%N.
Definition colon : codepoint := 58%N.

Inductive exn : Type :=
| ParseError | AttributeError | TypeError | ValueError | IndexError
| UnicodeDecodeError | ClientError | ConnectionResetError.

Inductive result (A : Type) : Type :=
| Ok (a : A)
| Raise (e : exn).
Arguments Ok {A} a.
Arguments Raise {A} e.

(** The minute field of ["%H:%M"]: [[0-5]\d|\d], then end of input. *)
Definition parse_minute (s : str) : result N :=
  match s with
  | [m1; m2] =>
      if is_digit m1 && (digit_val m1 <=? 5)%N && is_digit m2
      then Ok (digit_val m1 * 10 + digit_val m2)%N else Raise ValueError
  | [m1] => if is_digit m1 then Ok (digit_val m1) else Raise ValueError
  | _ => Raise ValueError
  end.

(** [parse_time]: [datetime.strptime(time_str, "%H:%M").time()] on a text
    of ASCII characters.  The hour field is [2[0-3]|[0-1]\d|\d] followed by
    a colon; a digit is one of the ten ASCII digits. *)
Definition parse_time (time_str : str) : result time :=
  let finish h rest :=
    match parse_minute rest with
    | Ok m => Ok (mktime h m 0 0)
    | Raise e => Raise e
    end in
  match time_str with
  | h1 :: h2 :: c :: rest =>
      if is_digit h1 && is_digit h2 && N.eqb c colon then
        let h := (digit_val h1 * 10 + digit_val h2)%N in
        if (h <=? 23)%N then finish h rest else Raise ValueError
      else if is_digit h1 && N.eqb h2 colon then finish (digit_val h1) (c :: rest)
      else Raise ValueError
  | h1 :: h2 :: rest =>
      if is_digit h1 && N.eqb h2 colon then finish (digit_val h1) rest
      else Raise ValueError
  | _ => Raise ValueError
  end.

Record PagerDutyTrigger := mkPagerDutyTrigger {
  api_token : option str;
  service_id : option str;
  from_email : option str;
  url : str;
  paging_start_time : time;
  paging_end_time : time
}.

(** The body of [is_paging_time] once [now] has been read from the clock. *)
Definition is_paging_time_at (self : PagerDutyTrigger) (now : time) : bool :=
  if time_leb (paging_start_time self) (paging_end_time self)
  then time_leb (paging_start_time self) now && time_ltb now (paging_end_time self)
  else time_geb now (paging_start_time self) || time_ltb now (paging_end_time self).

(** ** More [str] methods used by the handler *)

(** [s.split(sep)] for a one-character separator. *)
Fixpoint split_char_aux (sep : codepoint) (cur : str) (s : str) : list str :=
  match s with
  | [] => [rev cur]
  | c :: s' => if N.eqb c sep then rev cur :: split_char_aux sep [] s'
               else split_char_aux sep (c :: cur) s'
  end.
Definition split_char (sep : codepoint) (s : str) : list str := split_char_aux sep [] s.

(** [s.split(sep, 1)]: the text before and after the first occurrence of
    [sep], or [None] when the result has a single part. *)
Definition split_once (sep s : str) : option (str * str) :=
  match str_find sep s with
  | Some i => Some (firstn i s, skipn (i + length sep) s)
  | None => None
  end.

(** Line boundaries of [str.splitlines]. *)
Definition is_linebreak (c : codepoint) : bool :=
  existsb (N.eqb c) [10; 11; 12; 13; 28; 29; 30; 133; 8232; 8233]%N.

Fixpoint splitlines_aux (cur : str) (s : str) : list str :=
  match s with
  | [] => match cur with [] => [] | _ => [rev cur] end
  | c :: s' =>
      if N.eqb c 13 then
        match s' with
        | d :: s'' => if N.eqb d 10 then rev cur :: splitlines_aux [] s''
                      else rev cur :: splitlines_aux [] s'
        | [] => [rev cur]
        end
      else if is_linebreak c then rev cur :: splitlines_aux [] s'
      else splitlines_aux (c :: cur) s'
  end.
Definition splitlines (s : str) : list str := splitlines_aux [] s.

(** Whitespace of [str.split()] (CPython's [_PyUnicode_IsWhitespace]). *)
Definition is_space (c : codepoint) : bool :=
  ((9 <=? c) && (c <=? 13) || (28 <=? c) && (c <=? 32)
   || (8192 <=? c) && (c <=? 8202)
   || existsb (N.eqb c) [133; 160; 5760; 8232; 8233; 8239; 8287; 12288])%N.

Fixpoint split_ws_aux (cur : str) (s : str) : list str :=
  match s with
  | [] => match cur with [] => [] | _ => [rev cur] end
  | c :: s' =>
      if is_space c
      then match cur with [] => split_ws_aux [] s' | _ => rev cur :: split_ws_aux [] s' end
      else split_ws_aux (c :: cur) s'
  end.
Definition split_ws (s : str) : list str := split_ws_aux [] s.

(** ** Dictionaries with string keys, in insertion order *)

Definition dict (V : Type) := list (str * V).

Fixpoint dict_set {V} (k : str) (v : V) (d : dict V) : dict V :=
  match d with
  | [] => [(k, v)]
  | (k', v') :: d' => if str_eqb k k' then (k, v) :: d' else (k', v') :: dict_set k v d'
  end.

Fixpoint dict_get {V} (k : str) (d : dict V) : option V :=
  match d with
  | [] => None
  | (k', v') :: d' => if str_eqb k k' then Some v' else dict_get k d'
  end.

Definition dict_of_pairs {V} (l : list (str * V)) : dict V :=
  fold_left (fun d kv => dict_set (fst kv) (snd kv) d) l [].

(** [os.getenv(name, default)]. *)
Definition getenv (environ : dict str) (name : str) (default : str) : str :=
  match dict_get name environ with Some v => v | None => default end.
Definition getenv_opt (environ : dict str) (name : str) : option str := dict_get name environ.

(** ** [xml.etree.ElementTree.Element] *)

#[warnings="-register-all"]
Inductive Element : Type :=
| mkElement (tag : str) (attrib : dict str) (text : option str) (children : list Element).

Definition tag (e : Element) : str := let 'mkElement t _ _ _ := e in t.
Definition attrib (e : Element) : dict str := let 'mkElement _ a _ _ := e in a.
Definition text (e : Element) : option str := let 'mkElement _ _ x _ := e in x.
Definition children (e : Element) : list Element := let 'mkElement _ _ _ c := e in c.

(** [Element.iter()]: the element and its descendants in document order. *)
Fixpoint iter (e : Element) : list Element :=
  match e with
  | mkElement _ _ _ cs => e :: flat_map iter cs
  end.

Definition descendants (e : Element) : list Element := flat_map iter (children e).

(** [xml_root.find(".//name")]: the first proper descendant with that tag. *)
Definition find (name : str) (xml_root : Element) : option Element :=
  List.find (fun e => str_eqb (tag e) name) (descendants xml_root).

(** [elem.get(key)]. *)
Definition get (key : str) (e : Element) : option str := dict_get key (attrib e).

(** ** Libraries and the outside world *)

(** Library functions whose behaviour is fixed outside the module. *)
Record platform := mkPlatform {
  fromstring : str -> result Element;      (* ET.fromstring *)
  str_lower : str -> str;                  (* str.lower *)
  str_upper : str -> str;                  (* str.upper *)
  utf8_decode : bytes -> result str        (* bytes.decode('utf-8') *)
}.

Definition ascii_lower (c : codepoint) : codepoint :=
  if ((65 <=? c) && (c <=? 90))%N then (c + 32)%N else c.
Definition ascii_upper (c : codepoint) : codepoint :=
  if ((97 <=? c) && (c <=? 122))%N then (c - 32)%N else c.
Definition is_ascii (s : str) : Prop := Forall (fun c => (c < 128)%N) s.

(** What the proofs use of Unicode case mapping: on ASCII text it is the
    ASCII mapping, and upper-casing never erases a non-empty string. *)
Record platform_laws (P : platform) : Prop := {
  str_lower_ascii : forall s, is_ascii s -> str_lower P s = map ascii_lower s;
  str_upper_ascii : forall s, is_ascii s -> str_upper P s = map ascii_upper s;
  str_upper_nonempty : forall s, str_upper P s = [] -> s = []
}.

Inductive post_outcome : Type :=
| Responded (status : N)      (* the service answered with this HTTP status *)
| Failed.                     (* the request or the reading of its answer raised *)

Record world := mkWorld {
  clock : nat -> datetime;            (* the k-th reading of the wall clock *)
  paging_service : nat -> post_outcome;  (* fate of the k-th outbound request *)
  drain_ok : nat -> bool              (* whether the k-th [writer.drain()] returns *)
}.

(** ** Observable events *)

Inductive clock_owner : Type := ByHandler | ByTrigger.

Inductive incident_details : Type :=
| RawAlarmDetails (alarm_id alarm_name : option str)
                  (device_info : dict (option str)) (alarm_time : datetime)
| HttpAlarmDetails (device_info : dict (option str)) (xml_data : Element)
                   (alarm_time : datetime).

Record incident_request := mkIncident {
  req_url : str;
  req_token : option str;
  req_from : option str;
  req_service : option str;
  req_title : str;
  req_urgency : str;
  req_details : incident_details
}.

Inductive event : Type :=
| EvNow (who : clock_owner) (t : datetime)
| EvPost (req : incident_request)
| EvWrite (payload : bytes)
| EvClose.

Definition trace := list event.

Definition is_now (e : event) : bool := match e with EvNow _ _ => true | _ => false end.
Definition is_gate_read (e : event) : bool :=
  match e with EvNow ByTrigger _ => true | _ => false end.
Definition is_post (e : event) : bool := match e with EvPost _ => true | _ => false end.
Definition is_write (e : event) : bool := match e with EvWrite _ => true | _ => false end.

Definition count (p : event -> bool) (tr : trace) : nat := length (filter p tr).

(** Outbound incident requests issued so far. *)
Definition posts (tr : trace) : nat := count is_post tr.
(** Payloads written to the peer so far. *)
Definition writes (tr : trace) : nat := count is_write tr.
(** Evaluations of the time window gate so far. *)
Definition gate_evaluations (tr : trace) : nat := count is_gate_read tr.

(** ** Coroutines *)

Definition io (A : Type) : Type := trace -> result A * trace.

Definition ret {A} (a : A) : io A := fun tr => (Ok a, tr).
Definition raise {A} (e : exn) : io A := fun tr => (Raise e, tr).
Definition bind {A B} (m : io A) (k : A -> io B) : io B :=
  fun tr => match m tr with
            | (Ok a, tr') => k a tr'
            | (Raise e, tr') => (Raise e, tr')
            end.
Definition lift {A} (r : result A) : io A := fun tr => (r, tr).
Definition emit (e : event) : io unit := fun tr => (Ok tt, tr ++ [e]).

Declare Scope io_scope.
Delimit Scope io_scope with io.
Notation "x <- m ;; k" := (bind m (fun x => k))
  (at level 100, m at next level, right associativity) : io_scope.
Notation "m ;; k" := (bind m (fun _ => k))
  (at level 100, right associativity) : io_scope.
Open Scope io_scope.

(** [try: body except ...: handler]; [handler e = None] when no clause
    matches [e]. *)
Definition try_except {A} (body : io A) (handler : exn -> option (io A)) : io A :=
  fun tr => match body tr with
            | (Ok a, tr') => (Ok a, tr')
            | (Raise e, tr') =>
                match handler e with
                | Some h => h tr'
                | None => (Raise e, tr')
                end
            end.

(** [await asyncio.gather] over the tasks [aws].  Every coroutine of this module runs
    without suspending up to its outbound request, so the tasks' clock
    readings and requests happen in list order; all tasks are started, and
    an exception of one of them reaches the caller without cancelling the
    others. *)
Fixpoint gather (aws : list (io unit)) : io unit :=
  fun tr => match aws with
            | [] => (Ok tt, tr)
            | t :: rest =>
                match t tr with
                | (Ok _, tr1) => gather rest tr1
                | (Raise e, tr1) => (Raise e, snd (gather rest tr1))
                end
            end.

(** ** [ProvisionISRHandler] *)

Record ProvisionISRHandler := mkProvisionISRHandler {
  pagerduty_trigger : PagerDutyTrigger;
  pagerduty_alert_types : list str
}.

Definition fmt (o : option str) : str :=
  match o with Some s => s | None => lit "None" end.

(** [split_xml_documents]: [re.findall(r'(<\?xml.*?<\/config>)', data,
    re.DOTALL)].  A match starts at the first ["<?xml"] and, the body being
    lazy and matching any character, ends with the first ["</config>"]
    that begins after those five characters; the search resumes where the
    match ended.  When no ["</config>"] follows, no later start can match
    either. *)
Definition xml_decl : str := lit "<?xml".
Definition config_close : str := lit "</config>".

(** The shortest prefix of [s] that ends with ["</config>"], and the rest. *)
Fixpoint until_close (s : str) : option (str * str) :=
  if startswith config_close s
  then Some (config_close, skipn (length config_close) s)
  else match s with
       | [] => None
       | c :: s' => match until_close s' with
                    | Some (m, r) => Some (c :: m, r)
                    | None => None
                    end
       end.

Fixpoint findall_documents (fuel : nat) (data : str) : list str :=
  match fuel with
  | O => []
  | S fuel' =>
      match str_find xml_decl data with
      | None => []
      | Some i =>
          match until_close (skipn (i + length xml_decl) data) with
          | None => []
          | Some (body, rest) => (xml_decl ++ body) :: findall_documents fuel' rest
          end
      end
  end.

Definition split_xml_documents (data : str) : list str :=
  findall_documents (length data) data.

Definition identify_request_type (xml_root : Element) : str :=
  match find (lit "alarmStatusInfo") xml_root with
  | Some _ => lit "alarm"
  | None =>
      match find (lit "DataTime") xml_root, find (lit "DeviceInfo") xml_root with
      | Some _, Some _ => lit "heartbeat"
      | _, _ => lit "unknown"
      end
  end.

Definition extract_device_info (xml_root : Element) : dict (option str) :=
  match find (lit "DeviceInfo") xml_root with
  | Some device_info => dict_of_pairs (map (fun child => (tag child, text child)) (children device_info))
  | None => []
  end.

(** [x.text] where [x] is the result of a [find]. *)
Definition text_of_found (x : option Element) : result (option str) :=
  match x with Some e => Ok (text e) | None => Raise AttributeError end.

Definition extract_http_device_info (xml_root : Element) : result (dict (option str)) :=
  match text_of_found (find (lit "mac") xml_root) with
  | Raise e => Raise e
  | Ok mac =>
      match text_of_found (find (lit "sn") xml_root) with
      | Raise e => Raise e
      | Ok sn =>
          match text_of_found (find (lit "deviceName") xml_root) with
          | Raise e => Raise e
          | Ok deviceName =>
              Ok [(lit "mac", mac); (lit "sn", sn); (lit "deviceName", deviceName)]
          end
      end
  end.

(** The request [trigger_incident] sends. *)
Definition request_of (self : PagerDutyTrigger) (title : str)
    (details : incident_details) (urgency : str) : incident_request :=
  {| req_url := url self; req_token := api_token self;
     req_from := from_email self; req_service := service_id self;
     req_title := title; req_urgency := urgency; req_details := details |}.

(** The title [process_alarm] gives an incident. *)
Definition raw_title (alarm_type : str) (alarm_name : option str) : str :=
  lit "Provision ISR Alarm: " ++ alarm_type ++ lit " - " ++ fmt alarm_name.

Definition crlf2 : str := [13; 10; 13; 10]%N.

Section Handler.

Variable P : platform.
Variable W : world.

(** [datetime.now(self.israel_tz)]: the next reading of the wall clock. *)
Definition now (who : clock_owner) : io datetime :=
  fun tr => let t := clock W (count is_now tr) in (Ok t, tr ++ [EvNow who t]).

Definition trigger_get_current_israel_time : io datetime := now ByTrigger.
Definition get_current_israel_time : io datetime := now ByHandler.

Definition is_paging_time (self : PagerDutyTrigger) : io bool :=
  now <- trigger_get_current_israel_time ;;
  ret (is_paging_time_at self (time_of now)).

(** [session.post(self.url, headers=headers, json=payload)] and the reading
    of the response.  The call is made in every case.  A [From] header that
    is [None] (the sender address was not configured) cannot be written on
    the connection: the call then raises [TypeError] and the service gets no
    request. *)
Definition session_post (req : incident_request) : io N :=
  fun tr => match paging_service W (posts tr) with
            | Responded status =>
                match req_from req with
                | Some _ => (Ok status, tr ++ [EvPost req])
                | None => (Raise TypeError, tr ++ [EvPost req])
                end
            | Failed => (Raise ClientError, tr ++ [EvPost req])
            end.

Definition trigger_incident (self : PagerDutyTrigger) (title : str)
    (details : incident_details) (urgency : str) : io unit :=
  inside <- is_paging_time self ;;
  if negb inside then ret tt
  else
    status <- session_post (request_of self title details urgency) ;;
    if N.eqb status 201 then ret tt else ret tt.

Definition high : str := lit "high".

(** [__init__] of the two classes; [environ] is the process environment,
    and the time-zone database holds [Asia/Jerusalem]. *)
Definition new_PagerDutyTrigger (api_token service_id from_email : option str)
    (paging_start_time paging_end_time : str) : result PagerDutyTrigger :=
  match parse_time paging_start_time with
  | Raise e => Raise e
  | Ok s =>
      match parse_time paging_end_time with
      | Raise e => Raise e
      | Ok e =>
          Ok (mkPagerDutyTrigger api_token service_id from_email
                (lit "https://api.pagerduty.com/incidents") s e)
      end
  end.

Definition new_ProvisionISRHandler (environ : dict str) : result ProvisionISRHandler :=
  match new_PagerDutyTrigger
          (getenv_opt environ (lit "PAGERDUTY_API_TOKEN"))
          (getenv_opt environ (lit "PAGERDUTY_SERVICE_ID"))
          (getenv_opt environ (lit "PAGERDUTY_FROM_EMAIL"))
          (getenv environ (lit "PAGING_START_TIME") (lit "00:00"))
          (getenv environ (lit "PAGING_END_TIME") (lit "23:59")) with
  | Raise e => Raise e
  | Ok trigger =>
      Ok (mkProvisionISRHandler trigger
            (split_char 44%N (str_upper P (getenv environ (lit "PAGERDUTY_ALERT_TYPES") []))))
  end.

(** A failed [drain] re-raises whatever exception the transport has
    recorded; [ConnectionResetError] stands for it. *)
Definition send_response (content : bytes) : io unit :=
  fun tr => let tr' := tr ++ [EvWrite content] in
            if drain_ok W (writes tr) then (Ok tt, tr') else (Raise ConnectionResetError, tr').

Definition process_alarm (self : ProvisionISRHandler) (alarm_type : str)
    (alarm_id alarm_name : option str) (device_info : dict (option str)) : io unit :=
  current_time <- get_current_israel_time ;;
  if list_in (str_upper P alarm_type) (pagerduty_alert_types self) then
    let title := raw_title alarm_type alarm_name in
    let details := RawAlarmDetails alarm_id alarm_name device_info current_time in
    trigger_incident (pagerduty_trigger self) title details high
  else ret tt.

Definition process_http_alarm (self : ProvisionISRHandler) (smart_type : option str)
    (xml_root : Element) (device_info : dict (option str)) : io unit :=
  current_time <- get_current_israel_time ;;
  match smart_type with
  | None => raise AttributeError
  | Some smart_type =>
      if list_in (str_upper P smart_type) (pagerduty_alert_types self) then
        let alarm_name :=
          match find (lit "name") xml_root with
          | Some e => text e
          | None => Some (lit "Unknown")
          end in
        let title := lit "Provision ISR HTTP Alarm: " ++ smart_type ++ lit " - " ++ fmt alarm_name in
        let details := HttpAlarmDetails device_info xml_root current_time in
        trigger_incident (pagerduty_trigger self) title details high
      else ret tt
  end.

Definition handle_heartbeat (xml_root : Element) : io unit :=
  let device_info := extract_device_info xml_root in
  ret tt.

(** The [for alarm in alarm_info] loop of [handle_alarm]: it only builds the
    coroutine objects, which run when they are gathered. *)
Fixpoint alarm_loop (self : ProvisionISRHandler) (device_info : dict (option str))
    (alarms : list Element) (alarm_tasks : list (io unit)) : result (list (io unit)) :=
  match alarms with
  | [] => Ok alarm_tasks
  | alarm :: rest =>
      let alarm_type := tag alarm in
      let alarm_id := get (lit "id") alarm in
      let alarm_name := get (lit "name") alarm in
      match text alarm with
      | None => Raise AttributeError
      | Some t =>
          let alarm_status := str_lower P t in
          if str_eqb alarm_status (lit "true")
          then alarm_loop self device_info rest
                 (alarm_tasks ++ [process_alarm self alarm_type alarm_id alarm_name device_info])
          else alarm_loop self device_info rest alarm_tasks
      end
  end.

Definition handle_alarm (self : ProvisionISRHandler) (xml_root : Element) : io unit :=
  let alarm_info := find (lit "alarmStatusInfo") xml_root in
  let device_info := extract_device_info xml_root in
  match alarm_info with
  | None => raise TypeError
  | Some alarm_info =>
      alarm_tasks <- lift (alarm_loop self device_info (children alarm_info) []) ;;
      gather alarm_tasks
  end.

Definition nth_or_IndexError {A} (n : nat) (l : list A) : result A :=
  match nth_error l n with Some x => Ok x | None => Raise IndexError end.

(** The generator of header pairs: [line.split(': ', 1)] for every line
    that contains [': ']. *)
Fixpoint header_pairs (lines : list str) : list (str * str) :=
  match lines with
  | [] => []
  | line :: rest =>
      match split_once (lit ": ") line with
      | Some kv => kv :: header_pairs rest
      | None => header_pairs rest
      end
  end.

Definition parse_http_post (data : bytes) : result (dict str * str) :=
  match utf8_decode P data with
  | Raise e => Raise e
  | Ok request =>
      match split_once crlf2 request with
      | None => Raise ValueError
      | Some (headers, body) =>
          let headers := dict_of_pairs (header_pairs (tl (splitlines headers))) in
          match nth_or_IndexError 0 (splitlines request) with
          | Raise e => Raise e
          | Ok first_line =>
              match nth_or_IndexError 1 (split_ws first_line) with
              | Raise e => Raise e
              | Ok path => Ok (dict_set (lit "path") path headers, body)
              end
          end
      end
  end.

Definition handle_http_heartbeat (headers : dict str) : io unit :=
  let device_info := lit "IP: " ++ match dict_get (lit "Host") headers with
                                   | Some h => h
                                   | None => lit "Unknown"
                                   end in
  ret tt.

Definition handle_http_alarm (self : ProvisionISRHandler) (body : str) : io unit :=
  try_except
    (xml_root <- lift (fromstring P body) ;;
     smart_type <- lift (text_of_found (find (lit "smartType") xml_root)) ;;
     device_info <- lift (extract_http_device_info xml_root) ;;
     process_http_alarm self smart_type xml_root device_info)
    (fun e => match e with ParseError => Some (ret tt) | _ => None end).

Definition path_of (headers : dict str) : str :=
  match dict_get (lit "path") headers with Some p => p | None => [] end.

Definition handle_http_post (self : ProvisionISRHandler) (data : bytes) : io unit :=
  hb <- lift (parse_http_post data) ;;
  let '(headers, body) := hb in
  if str_in (lit "SendKeepalive") (path_of headers) then handle_http_heartbeat headers
  else if str_in (lit "SendAlarmData") (path_of headers) then handle_http_alarm self body
  else send_response "<error>Unknown HTTP POST request</error>".

(** The [for xml_doc in xml_documents] loop of [process_request]. *)
Fixpoint process_documents (self : ProvisionISRHandler) (xml_documents : list str) : io unit :=
  match xml_documents with
  | [] => ret tt
  | xml_doc :: rest =>
      xml_root <- lift (fromstring P xml_doc) ;;
      let request_type := identify_request_type xml_root in
      (if str_eqb request_type (lit "heartbeat") then handle_heartbeat xml_root
       else if str_eqb request_type (lit "alarm") then handle_alarm self xml_root
       else ret tt) ;;
      process_documents self rest
  end.

Definition OK_RESPONSE : bytes := "<response>OK</response>".
Definition INVALID_XML : bytes := "<error>Invalid XML</error>".
Definition INTERNAL_ERROR : bytes := "<error>Internal Server Error</error>".

(** The [try] block of [process_request]. *)
Definition request_body (self : ProvisionISRHandler) (data : bytes) : io unit :=
  if String.prefix "POST" data then handle_http_post self data
  else
    text <- lift (utf8_decode P data) ;;
    process_documents self (split_xml_documents text) ;;
    send_response OK_RESPONSE.

Definition process_request (self : ProvisionISRHandler) (data : bytes) : io unit :=
  try_except (request_body self data)
    (fun e => match e with
              | ParseError => Some (send_response INVALID_XML)
              | _ => Some (send_response INTERNAL_ERROR)
              end).

(** [handle_client], from the point where [reader.read(4096)] has returned
    [data] to the call of [writer.close()]. *)
Definition handle_client (self : ProvisionISRHandler) (data : bytes) : io unit :=
  (if String.eqb data "" then ret tt else process_request self data) ;;
  emit EvClose.

End Handler.

(** ** Vocabulary of the statements *)

(** The text spells "true" in some mix of upper- and lower-case letters. *)
Definition spells_true (s : str) : Prop := map ascii_lower s = lit "true".

(** What [process_request] does with one document. *)
Definition process_document (P : platform) (W : world) (self : ProvisionISRHandler)
    (xml_doc : str) : io unit :=
  xml_root <- lift (fromstring P xml_doc) ;;
  let request_type := identify_request_type xml_root in
  if str_eqb request_type (lit "heartbeat") then handle_heartbeat xml_root
  else if str_eqb request_type (lit "alarm") then handle_alarm P W self xml_root
  else ret tt.

(** A document that parses and is not an alarm message leaves no trace. *)
Definition parses_to_non_alarm (P : platform) (xml_doc : str) : Prop :=
  exists xml_root,
    fromstring P xml_doc = Ok xml_root /\ identify_request_type xml_root <> lit "alarm".

(** The closing tag occurs in [d] only as its last characters. *)
Definition closes_once (d : str) : Prop :=
  forall u v, d = u ++ config_close ++ v -> v = [].

(** [d] begins with the declaration and ends with the closing tag. *)
Definition config_document (d : str) : Prop :=
  exists body, d = xml_decl ++ body ++ config_close.

(** [e] lies strictly below [root] in the tree. *)
Inductive descendant_of (root : Element) : Element -> Prop :=
| desc_child (e : Element) : In e (children root) -> descendant_of root e
| desc_deeper (c e : Element) :
    In c (children root) -> descendant_of c e -> descendant_of root e.

Definition has_descendant (name : str) (root : Element) : Prop :=
  exists e, descendant_of root e /\ tag e = name.

(** The document has a descendant element with this tag. *)
Definition has_element (root : Element) (name : string) : Prop :=
  has_descendant (lit name) root.

Section ElementInduction.

Variable Q : Element -> Prop.
Hypothesis step : forall t a x cs, Forall Q cs -> Q (mkElement t a x cs).

Fixpoint Element_tree_ind (e : Element) : Q e :=
  match e with
  | mkElement t a x cs =>
      step t a x
        ((fix all (l : list Element) : Forall Q l :=
            match l with
            | [] => Forall_nil Q
            | c :: l' => Forall_cons c (Element_tree_ind c) (all l')
            end) cs)
  end.

End ElementInduction.

Definition is_close (e : event) : bool := match e with EvClose => true | _ => false end.

(** Neither a payload written to the peer nor the closing of the connection. *)
Definition quiet_event (e : event) : bool := negb (is_write e) && negb (is_close e).

(** [m] only appends events that satisfy [p]. *)
Definition only (p : event -> bool) {A} (m : io A) : Prop :=
  forall tr, exists added, snd (m tr) = tr ++ added /\ forallb p added = true.

(** An HTTP POST whose request parses and whose path names one of the two
    device endpoints. *)
Definition recognised_post (P : platform) (data : bytes) : Prop :=
  String.prefix "POST" data = true /\
  exists headers body,
    parse_http_post P data = Ok (headers, body) /\
    str_in (lit "SendKeepalive") (path_of headers)
    || str_in (lit "SendAlarmData") (path_of headers) = true.

Definition not_close (e : event) : bool := negb (is_close e).

(** [time.strftime("%H:%M")]: the zero-padded rendering of an hour and a
    minute. *)
Definition digit (n : N) : codepoint := (48 + n)%N.
Definition two_digits (n : N) : str := [digit (n / 10); digit (n mod 10)].
Definition strftime_HM (h m : N) : str := two_digits h ++ [colon] ++ two_digits m.

(** [sep.join(fields)] for a one-character separator. *)
Fixpoint join (sep : codepoint) (fields : list str) : str :=
  match fields with
  | [] => []
  | [x] => x
  | x :: rest => x ++ sep :: join sep rest
  end.

Definition comma : codepoint := 44%N.





(** What [trigger_incident] returns, inside the window, for a sender
    address and an answer of the paging service. *)
Definition outcome_result (sender : option str) (o : post_outcome) : result unit :=
  match o, sender with
  | Responded _, Some _ => Ok tt
  | Responded _, None => Raise TypeError
  | Failed, _ => Raise ClientError
  end.

(** The events of one qualifying alarm handled while the window is open. *)
Definition paged_events (W : world) (self : ProvisionISRHandler)
    (xml_root alarm : Element) (tr : trace) : trace :=
  let t1 := clock W (count is_now tr) in
  let t2 := clock W (S (count is_now tr)) in
  [ EvNow ByHandler t1; EvNow ByTrigger t2;
    EvPost (request_of (pagerduty_trigger self)
              (raw_title (tag alarm) (get (lit "name") alarm))
              (RawAlarmDetails (get (lit "id") alarm) (get (lit "name") alarm)
                 (extract_device_info xml_root) t1) high) ].

(** The documents [ds] lie in the buffer one after the other, in this
    order and without overlap. *)
Inductive in_order : list str -> str -> Prop :=
| in_order_nil (data : str) : in_order [] data
| in_order_cons (d : str) (ds : list str) (before rest : str) :
    in_order ds rest -> in_order (d :: ds) (before ++ d ++ rest).

Definition opt_eqb (a b : option str) : bool :=
  match a, b with
  | Some x, Some y => str_eqb x y
  | None, None => true
  | _, _ => false
  end.

(** An outbound request that carries the trigger's endpoint, credentials
    and service, with high urgency; any other event. *)
Definition from_trigger (trigger : PagerDutyTrigger) (e : event) : bool :=
  match e with
  | EvPost req =>
      str_eqb (req_url req) (url trigger) && opt_eqb (req_token req) (api_token trigger)
      && opt_eqb (req_from req) (from_email trigger)
      && opt_eqb (req_service req) (service_id trigger)
      && str_eqb (req_urgency req) high
  | _ => true
  end.

(** ** A concrete platform and world

    Used to run the handler on concrete inputs.  [Sample.platform0] agrees
    with CPython on the inputs it is run on below: its case mapping is the
    ASCII one, its codec is strict UTF-8, and its XML parser is the table of
    the documents used, each with the tree [ET.fromstring] builds for it;
    any other text is reported as a parse error. *)
Module Sample.

Local Open Scope string_scope.

Definition lower (s : str) : str := map ascii_lower s.
Definition upper (s : str) : str := map ascii_upper s.

Definition continuation (b : N) : bool := ((128 <=? b) && (b <=? 191))%N.
Definition between (lo b hi : N) : bool := ((lo <=? b) && (b <=? hi))%N.

(** Strict UTF-8 (RFC 3629): shortest forms only, no surrogates, at most
    U+10FFFF. *)
Fixpoint decode_utf8 (bs : list N) : result str :=
  let cons_ok c r := match r with Ok s => Ok (c :: s) | Raise e => Raise e end in
  match bs with
  | [] => Ok []
  | b0 :: r0 =>
      if (b0 <? 128)%N then cons_ok b0 (decode_utf8 r0)
      else if between 194 b0 223 then
        match r0 with
        | b1 :: r1 =>
            if continuation b1
            then cons_ok ((b0 - 192) * 64 + (b1 - 128))%N (decode_utf8 r1)
            else Raise UnicodeDecodeError
        | _ => Raise UnicodeDecodeError
        end
      else if between 224 b0 239 then
        match r0 with
        | b1 :: b2 :: r2 =>
            if between (if N.eqb b0 224 then 160 else 128) b1
                       (if N.eqb b0 237 then 159 else 191) && continuation b2
            then cons_ok ((b0 - 224) * 4096 + (b1 - 128) * 64 + (b2 - 128))%N
                         (decode_utf8 r2)
            else Raise UnicodeDecodeError
        | _ => Raise UnicodeDecodeError
        end
      else if between 240 b0 244 then
        match r0 with
        | b1 :: b2 :: b3 :: r3 =>
            if between (if N.eqb b0 240 then 144 else 128) b1
                       (if N.eqb b0 244 then 143 else 191)
               && continuation b2 && continuation b3
            then cons_ok ((b0 - 240) * 262144 + (b1 - 128) * 4096
                          + (b2 - 128) * 64 + (b3 - 128))%N (decode_utf8 r3)
            else Raise UnicodeDecodeError
        | _ => Raise UnicodeDecodeError
        end
      else Raise UnicodeDecodeError
  end.

Definition decode (data : bytes) : result str :=
  decode_utf8 (map N_of_ascii (list_ascii_of_string data)).

Definition leaf (name : string) (attrs : list (string * string)) (content : option string) : Element :=
  mkElement (lit name) (map (fun kv => (lit (fst kv), lit (snd kv))) attrs)
            (option_map lit content) [].
Definition node (name : string) (kids : list Element) : Element :=
  mkElement (lit name) [] None kids.

(** An alarm message with one active event of type [motionAlarm]. *)
Definition alarm_doc : string :=
  "<?xml version='1.0'?><config><DeviceInfo><DeviceName>NVR</DeviceName></DeviceInfo><alarmStatusInfo><motionAlarm id='1' name='Cam1'>TRUE</motionAlarm></alarmStatusInfo></config>".
Definition motion_event : Element :=
  leaf "motionAlarm" [("id", "1"); ("name", "Cam1")] (Some "TRUE").
Definition alarm_info : Element := node "alarmStatusInfo" [ motion_event ].
Definition alarm_root : Element :=
  node "config" [ node "DeviceInfo" [ leaf "DeviceName" [] (Some "NVR") ]; alarm_info ].

(** An alarm message whose only event carries no text. *)
Definition empty_alarm_doc : string :=
  "<?xml version='1.0'?><config><alarmStatusInfo><motionAlarm id='1' name='Cam1'/></alarmStatusInfo></config>".
Definition empty_alarm_root : Element :=
  node "config"
    [ node "alarmStatusInfo" [ leaf "motionAlarm" [("id", "1"); ("name", "Cam1")] None ] ].

(** The tree of an alarm message whose only event is not active. *)
Definition inactive_root : Element :=
  node "config" [ node "alarmStatusInfo" [ leaf "motionAlarm" [] (Some "False") ] ].

(** A heartbeat. *)
Definition heartbeat_doc : string :=
  "<?xml version='1.0'?><config><DataTime>2024-05-01 12:00:00</DataTime><DeviceInfo><DeviceName>NVR</DeviceName></DeviceInfo></config>".
Definition heartbeat_root : Element :=
  node "config"
    [ leaf "DataTime" [] (Some "2024-05-01 12:00:00");
      node "DeviceInfo" [ leaf "DeviceName" [] (Some "NVR") ] ].

(** Not well formed: [DataTime] is never closed. *)
Definition broken_doc : string :=
  "<?xml version='1.0'?><config><DataTime></config>".

(** Two well-formed documents for the splitter; the first nests a [config]
    element inside its root. *)
Definition nested_doc : string :=
  "<?xml version='1.0'?><config><config>a</config></config>".
Definition plain_doc : string :=
  "<?xml version='1.0'?><config>b</config>".

(** HTTP requests of a device: a keep-alive, and a POST to a path the
    handler does not know. *)
Definition crlf : string := String (ascii_of_nat 13) (String (ascii_of_nat 10) EmptyString).
Definition keepalive_request : string :=
  "POST /SendKeepalive HTTP/1.1" ++ crlf ++ "Host: 10.0.0.5" ++ crlf ++ crlf.
Definition other_request : string :=
  "POST /Other HTTP/1.1" ++ crlf ++ "Host: 10.0.0.5" ++ crlf ++ crlf.

(** Buffers holding two documents. *)
Definition alarm_then_broken : string := alarm_doc ++ broken_doc.
Definition heartbeat_then_empty_alarm : string := heartbeat_doc ++ empty_alarm_doc.

Definition parse_table : list (str * Element) :=
  [ (lit alarm_doc, alarm_root);
    (lit empty_alarm_doc, empty_alarm_root);
    (lit heartbeat_doc, heartbeat_root) ].

Definition parse (doc : str) : result Element :=
  match dict_get doc parse_table with
  | Some root => Ok root
  | None => Raise ParseError
  end.

Definition platform0 : platform := mkPlatform parse lower upper decode.

(** A world in which the clock always shows [t] on 1 May 2024, the paging
    service answers 201 and the peer accepts every write. *)
Definition world_at (t : time) : world :=
  mkWorld (fun _ => mkdatetime 2024 5 1 t) (fun _ => Responded 201) (fun _ => true).

(** The same world with a peer that has gone away: every drain raises. *)
Definition world_peer_gone (t : time) : world :=
  mkWorld (fun _ => mkdatetime 2024 5 1 t) (fun _ => Responded 201) (fun _ => false).

Definition noon : time := mktime 12 0 0 0.
Definition late_evening : time := mktime 23 30 0 0.

(** A handler paging from 08:00 to 20:00 for two alarm types. *)
Definition day_environ : dict str :=
  [ (lit "PAGING_START_TIME", lit "08:00");
    (lit "PAGING_END_TIME", lit "20:00");
    (lit "PAGERDUTY_ALERT_TYPES", lit "motionAlarm,sensorAlarm") ].
Definition day_handler : ProvisionISRHandler :=
  mkProvisionISRHandler
    (mkPagerDutyTrigger None None None (lit "https://api.pagerduty.com/incidents")
       (mktime 8 0 0 0) (mktime 20 0 0 0))
    [lit "MOTIONALARM"; lit "SENSORALARM"].

(** A trigger paging from 22:00 to 06:00. *)
Definition night_trigger : PagerDutyTrigger :=
  mkPagerDutyTrigger None None None (lit "https://api.pagerduty.com/incidents")
    (mktime 22 0 0 0) (mktime 6 0 0 0).


(** Worlds at noon whose paging service cannot be reached, or answers 500. *)
Definition world_unreachable : world :=
  mkWorld (fun _ => mkdatetime 2024 5 1 noon) (fun _ => Failed) (fun _ => true).
Definition world_rejecting : world :=
  mkWorld (fun _ => mkdatetime 2024 5 1 noon) (fun _ => Responded 500) (fun _ => true).

(** A buffer that is not UTF-8. *)
Definition undecodable : string := String (ascii_of_nat 255) "<?xml".

(** Alarm POSTs of a device: a complete body, a body without [sn], and a
    body that is not well formed; their trees; and a platform whose parser
    knows them. *)
Definition http_alarm_body : string :=
  "<?xml version='1.0'?><config><smartType>motionAlarm</smartType><mac>00:11:22:33:44:55</mac><sn>N123</sn><deviceName>NVR</deviceName></config>".
Definition http_alarm_root : Element :=
  node "config"
    [ leaf "smartType" [] (Some "motionAlarm");
      leaf "mac" [] (Some "00:11:22:33:44:55");
      leaf "sn" [] (Some "N123");
      leaf "deviceName" [] (Some "NVR") ].
Definition http_partial_body : string :=
  "<?xml version='1.0'?><config><smartType>motionAlarm</smartType><mac>00:11:22:33:44:55</mac><deviceName>NVR</deviceName></config>".
Definition http_partial_root : Element :=
  node "config"
    [ leaf "smartType" [] (Some "motionAlarm");
      leaf "mac" [] (Some "00:11:22:33:44:55");
      leaf "deviceName" [] (Some "NVR") ].
Definition http_broken_body : string := "<config><smartType>motionAlarm</config>".

Definition alarm_post (body : string) : string :=
  "POST /SendAlarmData HTTP/1.1" ++ crlf ++ "Host: 10.0.0.5" ++ crlf ++ crlf ++ body.
Definition alarm_headers : dict str :=
  [ (lit "Host", lit "10.0.0.5"); (lit "path", lit "/SendAlarmData") ].

(** A keep-alive whose path also names the alarm endpoint. *)
Definition mixed_request : string :=
  "POST /SendKeepalive/SendAlarmData HTTP/1.1" ++ crlf ++ crlf ++ http_alarm_body.

(** A POST in which nothing separates headers from body. *)
Definition unfinished_request : string := "POST /SendAlarmData HTTP/1.1" ++ crlf.

Definition http_parse_table : list (str * Element) :=
  [ (lit http_alarm_body, http_alarm_root);
    (lit http_partial_body, http_partial_root) ].

Definition http_parse (doc : str) : result Element :=
  match dict_get doc http_parse_table with
  | Some root => Ok root
  | None => Raise ParseError
  end.

Definition platform_http : platform := mkPlatform http_parse lower upper decode.

(** The day handler with its credentials configured: token, service and
    sender address. *)
Definition paging_environ : dict str :=
  [ (lit "PAGERDUTY_API_TOKEN", lit "token");
    (lit "PAGERDUTY_SERVICE_ID", lit "PSERVICE");
    (lit "PAGERDUTY_FROM_EMAIL", lit "alarms@example.com");
    (lit "PAGING_START_TIME", lit "08:00");
    (lit "PAGING_END_TIME", lit "20:00");
    (lit "PAGERDUTY_ALERT_TYPES", lit "motionAlarm,sensorAlarm") ].
Definition paging_handler : ProvisionISRHandler :=
  mkProvisionISRHandler
    (mkPagerDutyTrigger (Some (lit "token")) (Some (lit "PSERVICE"))
       (Some (lit "alarms@example.com")) (lit "https://api.pagerduty.com/incidents")
       (mktime 8 0 0 0) (mktime 20 0 0 0))
    [lit "MOTIONALARM"; lit "SENSORALARM"].

(** A document cut before its closing tag: not well formed, and nothing
    the splitter extracts. *)
Definition truncated_doc : string := "<?xml version='1.0'?><config><DataTime>".

(** A trigger paging from 06:00 to 22:00, the complement of [night_trigger]. *)
Definition morning_trigger : PagerDutyTrigger :=
  mkPagerDutyTrigger None None None (lit "https://api.pagerduty.com/incidents")
    (mktime 6 0 0 0) (mktime 22 0 0 0).

End Sample.

(** * Properties *)

Lemma str_eqb_eq (a b : str) : str_eqb a b = true <-> a = b.
Proof.
  unfold str_eqb. destruct (list_eq_dec N.eq_dec a b); split; congruence.
Qed.

Lemma str_eqb_refl (a : str) : str_eqb a a = true.
Proof. now apply str_eqb_eq. Qed.

(** ** The sample platform *)

Example day_handler_from_environ :
  new_ProvisionISRHandler Sample.platform0 Sample.day_environ = Ok Sample.day_handler.
Proof. reflexivity. Qed.

Example paging_handler_from_environ :
  new_ProvisionISRHandler Sample.platform0 Sample.paging_environ = Ok Sample.paging_handler.
Proof. reflexivity. Qed.

Example sample_decode_ascii :
  Sample.decode "POST /x" = Ok (lit "POST /x").
Proof. reflexivity. Qed.

Example sample_decode_two_bytes :
  Sample.decode (String (ascii_of_nat 195) (String (ascii_of_nat 169) EmptyString))
  = Ok [233%N].
Proof. reflexivity. Qed.

Example sample_decode_rejects_overlong :
  Sample.decode (String (ascii_of_nat 192) (String (ascii_of_nat 128) EmptyString))
  = Raise UnicodeDecodeError.
Proof. reflexivity. Qed.

Example sample_parse_time :
  parse_time (lit "23:59") = Ok (mktime 23 59 0 0) /\
  parse_time (lit "7:5") = Ok (mktime 7 5 0 0) /\
  parse_time (lit "24:00") = Raise ValueError /\
  parse_time (lit "12:345") = Raise ValueError.
Proof. repeat split. Qed.

Example sample_keepalive_headers :
  parse_http_post Sample.platform0 Sample.keepalive_request =
  Ok ([(lit "Host", lit "10.0.0.5"); (lit "path", lit "/SendKeepalive")], []).
Proof. reflexivity. Qed.

Lemma sample_platform_laws : platform_laws Sample.platform0.
Proof.
  split; simpl; intros s; try reflexivity.
  unfold Sample.upper. apply map_eq_nil.
Qed.

(** ** The time window gate *)

Lemma time_cmp_micros (a b : time) :
  valid_time a -> valid_time b -> time_cmp a b = N.compare (micros a) (micros b).
Proof.
  unfold valid_time, time_cmp, micros.
  destruct a as [ha ma sa ua], b as [hb mb sb ub]; simpl.
  intros (Ha & Hma & Hsa & Hua) (Hb & Hmb & Hsb & Hub).
  symmetry.
  destruct (N.compare_spec ha hb) as [Eh | Lh | Gh];
    [ subst hb;
      destruct (N.compare_spec ma mb) as [Em | Lm | Gm];
      [ subst mb;
        destruct (N.compare_spec sa sb) as [Es | Ls | Gs];
        [ subst sb; destruct (N.compare_spec ua ub) as [Eu | Lu | Gu] | | ] | | ] | | ];
    first [ apply N.compare_eq_iff | apply N.compare_lt_iff | apply N.compare_gt_iff ];
    lia.
Qed.

Lemma time_leb_micros (a b : time) :
  valid_time a -> valid_time b -> time_leb a b = (micros a <=? micros b)%N.
Proof.
  intros Ha Hb. unfold time_leb, N.leb. now rewrite (time_cmp_micros Ha Hb).
Qed.

Lemma time_ltb_micros (a b : time) :
  valid_time a -> valid_time b -> time_ltb a b = (micros a <? micros b)%N.
Proof.
  intros Ha Hb. unfold time_ltb, N.ltb. now rewrite (time_cmp_micros Ha Hb).
Qed.

Lemma is_paging_time_run (W : world) (self : PagerDutyTrigger) (tr : trace) :
  is_paging_time W self tr =
    (Ok (is_paging_time_at self (time_of (clock W (count is_now tr)))),
     tr ++ [EvNow ByTrigger (clock W (count is_now tr))]).
Proof. reflexivity. Qed.

(** C1: for every configured pair (start, end) and every current time, the
    gate answers true exactly when start <= now < end if start <= end, and
    exactly when now >= start or now < end if start > end; start is
    inclusive and end exclusive in both cases.  Times are compared as
    instants of the day. *)
Theorem is_paging_time_window (W : world) (self : PagerDutyTrigger) (tr : trace) :
  let start := paging_start_time self in
  let stop := paging_end_time self in
  let now := time_of (clock W (count is_now tr)) in
  valid_time start -> valid_time stop -> valid_time now ->
  exists inside,
    fst (is_paging_time W self tr) = Ok inside /\
    ((micros start <= micros stop)%N ->
       (inside = true <-> (micros start <= micros now /\ micros now < micros stop)%N)) /\
    ((micros stop < micros start)%N ->
       (inside = true <-> (micros now >= micros start \/ micros now < micros stop)%N)).
Proof.
  intros start stop now Hs He Hn.
  exists (is_paging_time_at self now). split; [reflexivity|].
  unfold is_paging_time_at, time_geb. fold start stop.
  rewrite !(time_leb_micros Hs He), (time_leb_micros Hs Hn), (time_ltb_micros Hn He).
  split; intros Hord.
  - apply N.leb_le in Hord. rewrite Hord.
    rewrite andb_true_iff, N.leb_le, N.ltb_lt. tauto.
  - apply N.leb_gt in Hord. rewrite Hord.
    rewrite orb_true_iff, N.leb_le, N.ltb_lt. lia.
Qed.

Lemma is_paging_time_window_witness :
  exists inside,
    fst (is_paging_time (Sample.world_at Sample.late_evening) Sample.night_trigger []) = Ok inside /\
    ((micros (mktime 22 0 0 0) <= micros (mktime 6 0 0 0))%N ->
       (inside = true <->
        (micros (mktime 22 0 0 0) <= micros Sample.late_evening
         /\ micros Sample.late_evening < micros (mktime 6 0 0 0))%N)) /\
    ((micros (mktime 6 0 0 0) < micros (mktime 22 0 0 0))%N ->
       (inside = true <->
        (micros Sample.late_evening >= micros (mktime 22 0 0 0)
         \/ micros Sample.late_evening < micros (mktime 6 0 0 0))%N)).
Proof.
  apply (is_paging_time_window (Sample.world_at Sample.late_evening) Sample.night_trigger []);
    vm_compute; repeat split; reflexivity.
Defined.

(** C8 (the code falls short of the claim): with the default configuration
    the handler is built, its window is 00:00 to 23:59, and thirty seconds
    before midnight the gate answers false. *)
Theorem default_window_excludes_last_minute (P : platform) :
  exists self,
    new_ProvisionISRHandler P [] = Ok self /\
    paging_start_time (pagerduty_trigger self) = mktime 0 0 0 0 /\
    paging_end_time (pagerduty_trigger self) = mktime 23 59 0 0 /\
    is_paging_time_at (pagerduty_trigger self) (mktime 23 59 30 0) = false.
Proof.
  eexists. split; [reflexivity|]. repeat split.
Qed.

(** With the default window the gate is open exactly before 23:59:00. *)
Lemma default_window_extent (P : platform) (self : ProvisionISRHandler) (now : time) :
  new_ProvisionISRHandler P [] = Ok self -> valid_time now ->
  is_paging_time_at (pagerduty_trigger self) now = true <->
  (micros now < micros (mktime 23 59 0 0))%N.
Proof.
  intros Hnew Hnow. inversion Hnew; subst self; clear Hnew.
  unfold is_paging_time_at.
  cbn [pagerduty_trigger paging_start_time paging_end_time].
  assert (V0 : valid_time (mktime 0 0 0 0)) by (vm_compute; repeat split; reflexivity).
  assert (V1 : valid_time (mktime 23 59 0 0)) by (vm_compute; repeat split; reflexivity).
  rewrite (time_leb_micros V0 V1), (time_leb_micros V0 Hnow), (time_ltb_micros Hnow V1).
  change (micros (mktime 0 0 0 0)) with 0%N.
  change (0 <=? micros (mktime 23 59 0 0))%N with true. cbv iota.
  rewrite andb_true_iff, N.leb_le, N.ltb_lt. lia.
Qed.

Lemma default_window_extent_witness :
  is_paging_time_at
    (mkPagerDutyTrigger None None None (lit "https://api.pagerduty.com/incidents")
       (mktime 0 0 0 0) (mktime 23 59 0 0)) Sample.noon = true <->
  (micros Sample.noon < micros (mktime 23 59 0 0))%N.
Proof.
  apply (@default_window_extent Sample.platform0
           (mkProvisionISRHandler
              (mkPagerDutyTrigger None None None (lit "https://api.pagerduty.com/incidents")
                 (mktime 0 0 0 0) (mktime 23 59 0 0)) [[]]) Sample.noon).
  - reflexivity.
  - vm_compute. repeat split; reflexivity.
Defined.

(** ** Counting events *)

Lemma count_app (p : event -> bool) (a b : trace) : count p (a ++ b) = count p a + count p b.
Proof. unfold count. now rewrite filter_app, length_app. Qed.

Lemma count_snoc (p : event -> bool) (tr : trace) (e : event) :
  count p (tr ++ [e]) = count p tr + (if p e then 1 else 0).
Proof. rewrite count_app. unfold count at 2. simpl. now destruct (p e). Qed.

(** ** Running the incident dispatcher *)

Section Runs.

Variable P : platform.
Variable W : world.


Lemma trigger_incident_outside (self : PagerDutyTrigger) title details urgency (tr : trace) :
  is_paging_time_at self (time_of (clock W (count is_now tr))) = false ->
  trigger_incident W self title details urgency tr =
    (Ok tt, tr ++ [EvNow ByTrigger (clock W (count is_now tr))]).
Proof.
  intros Hout. unfold trigger_incident, bind. rewrite is_paging_time_run, Hout. reflexivity.
Qed.

Lemma trigger_incident_inside (self : PagerDutyTrigger) title details urgency (tr : trace) :
  is_paging_time_at self (time_of (clock W (count is_now tr))) = true ->
  snd (trigger_incident W self title details urgency tr) =
    tr ++ [EvNow ByTrigger (clock W (count is_now tr));
           EvPost (request_of self title details urgency)].
Proof.
  intros Hin. unfold trigger_incident, bind. rewrite is_paging_time_run, Hin. simpl.
  unfold session_post. fold (request_of self title details urgency).
  destruct (paging_service W _) as [status|]; simpl.
  - destruct (from_email self); simpl; [|now rewrite <- app_assoc].
    destruct (N.eqb status 201); simpl; now rewrite <- app_assoc.
  - now rewrite <- app_assoc.
Qed.


Lemma process_alarm_listed (self : ProvisionISRHandler) alarm_type alarm_id alarm_name
    device_info (tr : trace) :
  list_in (str_upper P alarm_type) (pagerduty_alert_types self) = true ->
  process_alarm P W self alarm_type alarm_id alarm_name device_info tr =
    trigger_incident W (pagerduty_trigger self) (raw_title alarm_type alarm_name)
      (RawAlarmDetails alarm_id alarm_name device_info (clock W (count is_now tr))) high
      (tr ++ [EvNow ByHandler (clock W (count is_now tr))]).
Proof.
  intros Hin. unfold process_alarm, bind, get_current_israel_time, now. now rewrite Hin.
Qed.

Lemma process_alarm_unlisted (self : ProvisionISRHandler) alarm_type alarm_id alarm_name
    device_info (tr : trace) :
  list_in (str_upper P alarm_type) (pagerduty_alert_types self) = false ->
  process_alarm P W self alarm_type alarm_id alarm_name device_info tr =
    (Ok tt, tr ++ [EvNow ByHandler (clock W (count is_now tr))]).
Proof.
  intros Hout. unfold process_alarm, bind, get_current_israel_time, now. now rewrite Hout.
Qed.

End Runs.

(** ** The decision step and the gate *)

Lemma trigger_incident_gate_once (W : world) (self : PagerDutyTrigger) title details urgency
    (tr : trace) :
  gate_evaluations (snd (trigger_incident W self title details urgency tr)) =
  gate_evaluations tr + 1.
Proof.
  destruct (is_paging_time_at self (time_of (clock W (count is_now tr)))) eqn:G.
  - rewrite (trigger_incident_inside _ _ _ _ _ _ G).
    unfold gate_evaluations. rewrite count_app. reflexivity.
  - rewrite (trigger_incident_outside _ _ _ _ _ _ G).
    unfold gate_evaluations. simpl. rewrite count_snoc. reflexivity.
Qed.


(** C7, as the code has it: a qualifying event is forwarded to the incident
    dispatcher without the decision step consulting the paging window; the
    window is evaluated exactly once, inside the trigger call; and whenever
    that evaluation is false the trigger call returns normally without an
    outbound request. *)
Theorem window_checked_once_inside_trigger (P : platform) (W : world)
    (self : ProvisionISRHandler) (alarm_type : str) (alarm_id alarm_name : option str)
    (device_info : dict (option str)) (tr : trace) :
  list_in (str_upper P alarm_type) (pagerduty_alert_types self) = true ->
  let reading := clock W (count is_now tr) in
  let forwarded :=
    trigger_incident W (pagerduty_trigger self) (raw_title alarm_type alarm_name)
      (RawAlarmDetails alarm_id alarm_name device_info reading) high in
  process_alarm P W self alarm_type alarm_id alarm_name device_info tr =
    forwarded (tr ++ [EvNow ByHandler reading]) /\
  gate_evaluations (tr ++ [EvNow ByHandler reading]) = gate_evaluations tr /\
  gate_evaluations (snd (process_alarm P W self alarm_type alarm_id alarm_name device_info tr)) =
    gate_evaluations tr + 1 /\
  (forall title details urgency tr',
     is_paging_time_at (pagerduty_trigger self) (time_of (clock W (count is_now tr'))) = false ->
     fst (trigger_incident W (pagerduty_trigger self) title details urgency tr') = Ok tt /\
     posts (snd (trigger_incident W (pagerduty_trigger self) title details urgency tr')) =
       posts tr').
Proof.
  intros Hlisted reading forwarded.
  assert (Hrun := process_alarm_listed P W self alarm_type alarm_id alarm_name device_info tr Hlisted).
  assert (Hg : gate_evaluations (tr ++ [EvNow ByHandler reading]) = gate_evaluations tr).
  { unfold gate_evaluations. rewrite count_snoc. simpl. lia. }
  split; [exact Hrun|]. split; [exact Hg|]. split.
  - rewrite Hrun, trigger_incident_gate_once. fold reading. now rewrite Hg.
  - intros title details urgency tr' Hout.
    rewrite (trigger_incident_outside _ _ _ _ _ _ Hout). split; [reflexivity|].
    unfold posts. simpl. rewrite count_snoc. simpl. lia.
Qed.

Lemma window_checked_once_inside_trigger_witness :
  gate_evaluations
    (snd (process_alarm Sample.platform0 (Sample.world_at Sample.late_evening)
            Sample.day_handler (lit "motionAlarm") None None [] [])) = 0 + 1.
Proof.
  apply (window_checked_once_inside_trigger Sample.platform0
           (Sample.world_at Sample.late_evening) Sample.day_handler
           (lit "motionAlarm") None None [] []).
  reflexivity.
Defined.

(** C7, as stated, fails: for a qualifying event inside the window the gate
    is evaluated once, not twice, on the way to the single outbound
    request. *)
Lemma window_not_checked_twice :
  let tr := snd (process_alarm Sample.platform0 (Sample.world_at Sample.noon)
                   Sample.day_handler (lit "motionAlarm") (Some (lit "1"))
                   (Some (lit "Cam1")) [] []) in
  list_in (str_upper Sample.platform0 (lit "motionAlarm"))
          (pagerduty_alert_types Sample.day_handler) = true /\
  gate_evaluations tr = 1 /\ gate_evaluations tr <> 2 /\ posts tr = 1.
Proof. vm_compute. repeat split; discriminate. Qed.

(** ** The allow-list *)

Lemma list_in_singleton_nil (x : str) : list_in x [[]] = true <-> x = [].
Proof.
  unfold list_in; simpl. rewrite orb_false_r. apply str_eqb_eq.
Qed.

(** C10: when the allow-list variable is unset or empty, the allow-list is
    the one-element list holding the empty string, and no alarm event with
    a non-empty type name reaches the incident dispatcher: the decision
    step reads the clock and returns. *)
Theorem empty_allow_list_forwards_nothing (P : platform) (environ : dict str)
    (self : ProvisionISRHandler) :
  platform_laws P ->
  getenv_opt environ (lit "PAGERDUTY_ALERT_TYPES") = None
  \/ getenv_opt environ (lit "PAGERDUTY_ALERT_TYPES") = Some [] ->
  new_ProvisionISRHandler P environ = Ok self ->
  pagerduty_alert_types self = [[]] /\
  forall (W : world) alarm_type alarm_id alarm_name device_info tr,
    alarm_type <> [] ->
    process_alarm P W self alarm_type alarm_id alarm_name device_info tr =
      (Ok tt, tr ++ [EvNow ByHandler (clock W (count is_now tr))]).
Proof.
  intros Laws Hunset Hnew.
  assert (Hlist : pagerduty_alert_types self = [[]]).
  { unfold new_ProvisionISRHandler in Hnew.
    destruct (new_PagerDutyTrigger _ _ _ _ _) as [trigger|]; [|discriminate].
    inversion Hnew; subst self; clear Hnew. cbn [pagerduty_alert_types].
    assert (Hval : getenv environ (lit "PAGERDUTY_ALERT_TYPES") [] = []).
    { unfold getenv, getenv_opt in *. destruct Hunset as [-> | ->]; reflexivity. }
    rewrite Hval, (str_upper_ascii Laws) by constructor. reflexivity. }
  split; [exact Hlist|].
  intros W alarm_type alarm_id alarm_name device_info tr Hne.
  apply process_alarm_unlisted. rewrite Hlist.
  destruct (list_in (str_upper P alarm_type) [[]]) eqn:E; [|reflexivity].
  apply list_in_singleton_nil, (str_upper_nonempty Laws) in E. contradiction.
Qed.

Lemma empty_allow_list_forwards_nothing_witness :
  (getenv_opt [] (lit "PAGERDUTY_ALERT_TYPES") = None
   \/ getenv_opt [] (lit "PAGERDUTY_ALERT_TYPES") = Some []) /\
  exists self,
    new_ProvisionISRHandler Sample.platform0 [] = Ok self /\
    pagerduty_alert_types self = [[]] /\
    forall (W : world) alarm_type alarm_id alarm_name device_info tr,
      alarm_type <> [] ->
      process_alarm Sample.platform0 W self alarm_type alarm_id alarm_name device_info tr =
        (Ok tt, tr ++ [EvNow ByHandler (clock W (count is_now tr))]).
Proof.
  split; [left; reflexivity|].
  eexists. split; [reflexivity|].
  apply (@empty_allow_list_forwards_nothing Sample.platform0 [] _ sample_platform_laws);
    [left; reflexivity | reflexivity].
Defined.

(** ** One alarm message *)

Section Alarm.

Variable P : platform.
Variable W : world.
Hypothesis Laws : platform_laws P.


Lemma ascii_lower_ascii (c : codepoint) : (ascii_lower c < 128)%N -> (c < 128)%N.
Proof.
  unfold ascii_lower. destruct ((65 <=? c) && (c <=? 90))%N eqn:E; [|trivial].
  apply andb_true_iff in E. destruct E as [_ E]. apply N.leb_le in E. lia.
Qed.

Lemma spells_true_lower (s : str) : spells_true s -> str_lower P s = lit "true".
Proof.
  intros Hs. rewrite (str_lower_ascii Laws); [exact Hs|].
  unfold spells_true in Hs. unfold is_ascii.
  assert (Hall : Forall (fun c => (c < 128)%N) (map ascii_lower s)).
  { rewrite Hs. repeat constructor. }
  clear Hs. induction s as [|c s IH]; [constructor|].
  inversion Hall; subst. constructor; [now apply ascii_lower_ascii | now apply IH].
Qed.

Lemma gather_one (t : io unit) (tr : trace) :
  gather [t] tr = (match fst (t tr) with Ok _ => Ok tt | Raise e => Raise e end, snd (t tr)).
Proof. simpl. destruct (t tr) as [[[]|e] tr1]; reflexivity. Qed.


Lemma identify_alarm (xml_root alarm_info : Element) :
  find (lit "alarmStatusInfo") xml_root = Some alarm_info ->
  identify_request_type xml_root = lit "alarm".
Proof. intros H. unfold identify_request_type. now rewrite H. Qed.

Lemma send_response_trace (content : bytes) (tr : trace) :
  snd (send_response W content tr) = tr ++ [EvWrite content].
Proof. unfold send_response. now destruct (drain_ok W (writes tr)). Qed.


Lemma process_request_trace (self : ProvisionISRHandler) (data : bytes) (tr : trace) :
  snd (process_request P W self data tr) =
  match request_body P W self data tr with
  | (Ok _, tr') => tr'
  | (Raise ParseError, tr') => tr' ++ [EvWrite INVALID_XML]
  | (Raise _, tr') => tr' ++ [EvWrite INTERNAL_ERROR]
  end.
Proof.
  unfold process_request, try_except. fold (request_body P W self data).
  destruct (request_body P W self data tr) as [[[]|e] tr']; [reflexivity|].
  destruct e; apply send_response_trace.
Qed.

Lemma posts_snoc_write (tr : trace) (content : bytes) :
  posts (tr ++ [EvWrite content]) = posts tr.
Proof. unfold posts. rewrite count_snoc. simpl. lia. Qed.


End Alarm.

Lemma posts_snoc_now (tr : trace) (who : clock_owner) (t : datetime) :
  posts (tr ++ [EvNow who t]) = posts tr.
Proof. unfold posts. rewrite count_snoc. simpl. lia. Qed.



(** ** The document splitter *)

Lemma startswith_app (p s : str) : startswith p (p ++ s) = true.
Proof. induction p as [|x p IH]; simpl; [reflexivity|]. now rewrite N.eqb_refl. Qed.

Lemma startswith_iff (p s : str) : startswith p s = true <-> exists v, s = p ++ v.
Proof.
  split.
  - revert s. induction p as [|x p IH]; intros s H.
    + now exists s.
    + destruct s as [|y s]; [discriminate|]. simpl in H.
      apply andb_true_iff in H. destruct H as [Hx Hp]. apply N.eqb_eq in Hx. subst y.
      destruct (IH _ Hp) as [v ->]. now exists v.
  - intros [v ->]. apply startswith_app.
Qed.

Lemma str_find_unfold (needle s : str) :
  str_find needle s =
  if startswith needle s then Some 0
  else match s with [] => None | _ :: s' => option_map S (str_find needle s') end.
Proof. destruct s; reflexivity. Qed.

Lemma until_close_unfold (s : str) :
  until_close s =
  if startswith config_close s
  then Some (config_close, skipn (length config_close) s)
  else match s with
       | [] => None
       | c :: s' => match until_close s' with
                    | Some (m, r) => Some (c :: m, r)
                    | None => None
                    end
       end.
Proof. destruct s; reflexivity. Qed.

Lemma str_find_at_start (p s : str) : str_find p (p ++ s) = Some 0.
Proof. now rewrite str_find_unfold, startswith_app. Qed.


Lemma firstn_app_le {A} (n : nat) (l1 l2 : list A) :
  n <= length l1 -> firstn n (l1 ++ l2) = firstn n l1.
Proof.
  intros H. rewrite firstn_app. replace (n - length l1) with 0 by lia.
  simpl. apply app_nil_r.
Qed.

Lemma skipn_exact {A} (l r : list A) : skipn (length l) (l ++ r) = r.
Proof. induction l; simpl; auto. Qed.

Lemma until_close_first (body rest : str) :
  closes_once (body ++ config_close) ->
  until_close (body ++ config_close ++ rest) = Some (body ++ config_close, rest).
Proof.
  induction body as [|c body IH]; intros Honce.
  - change ([] ++ config_close ++ rest) with (config_close ++ rest).
    change ([] ++ config_close) with config_close.
    rewrite until_close_unfold, startswith_app.
    now rewrite skipn_app, skipn_all, Nat.sub_diag.
  - rewrite until_close_unfold.
    destruct (startswith config_close ((c :: body) ++ config_close ++ rest)) eqn:E.
    + exfalso. apply startswith_iff in E. destruct E as [v Hv].
      set (X := (c :: body) ++ config_close) in *.
      assert (Hlen : length X = S (length body) + length config_close)
        by (unfold X; rewrite length_app; reflexivity).
      assert (Hpre : firstn (length config_close) X = config_close).
      { rewrite <- (firstn_app_le X rest) by lia.
        unfold X. rewrite <- app_assoc, Hv. rewrite firstn_app_le by lia. apply firstn_all. }
      assert (HX : X = [] ++ config_close ++ skipn (length config_close) X).
      { rewrite <- (firstn_skipn (length config_close) X) at 1. now rewrite Hpre. }
      apply Honce in HX. apply (f_equal (@length _)) in HX.
      rewrite length_skipn, Hlen in HX. simpl in HX. lia.
    + change ((c :: body) ++ config_close ++ rest) with (c :: (body ++ config_close ++ rest)).
      cbv beta iota. rewrite IH; [reflexivity|].
      intros u v Huv. apply (Honce (c :: u) v). simpl. now rewrite Huv.
Qed.

Lemma findall_documents_nil (fuel : nat) : findall_documents fuel [] = [].
Proof. destruct fuel; reflexivity. Qed.

Lemma findall_documents_step (fuel : nat) (body rest : str) :
  closes_once (xml_decl ++ body ++ config_close) ->
  findall_documents (S fuel) (xml_decl ++ body ++ config_close ++ rest) =
  (xml_decl ++ body ++ config_close) :: findall_documents fuel rest.
Proof.
  intros Honce. cbn [findall_documents].
  rewrite str_find_at_start. cbn [Nat.add].
  rewrite skipn_app, skipn_all, Nat.sub_diag. cbn [skipn app].
  rewrite until_close_first; [reflexivity|].
  intros u v Huv. apply (Honce (xml_decl ++ u) v). now rewrite <- app_assoc, Huv.
Qed.

(** The fuel of [split_xml_documents] is never exhausted: any larger
    amount finds the same documents. *)
Lemma until_close_shorter (s m r : str) :
  until_close s = Some (m, r) -> length r < length s.
Proof.
  revert m r. induction s as [|c s IH]; intros m r H.
  - rewrite until_close_unfold in H. discriminate.
  - rewrite until_close_unfold in H.
    destruct (startswith config_close (c :: s)) eqn:E.
    + assert (Hr : r = skipn (length config_close) (c :: s)) by congruence.
      rewrite Hr, length_skipn.
      apply startswith_iff in E. destruct E as [v Hv]. rewrite Hv, length_app.
      change (length config_close) with 9. lia.
    + destruct (until_close s) as [[m' r']|] eqn:U; [|discriminate].
      injection H as _ Hr. subst r'. specialize (IH _ _ eq_refl). simpl. lia.
Qed.

Lemma findall_documents_fuel (n m : nat) (data : str) :
  length data <= n -> length data <= m ->
  findall_documents n data = findall_documents m data.
Proof.
  revert m data. induction n as [|n IH]; intros m data Hn Hm.
  - destruct data; [|simpl in Hn; lia]. now rewrite !findall_documents_nil.
  - destruct m as [|m].
    + destruct data; [|simpl in Hm; lia]. now rewrite !findall_documents_nil.
    + cbn [findall_documents].
      destruct (str_find xml_decl data) as [i|]; [|reflexivity].
      destruct (until_close (skipn (i + length xml_decl) data)) as [[body rest]|] eqn:U;
        [|reflexivity].
      apply until_close_shorter in U. rewrite length_skipn in U.
      f_equal. apply IH; lia.
Qed.

(** C3, as the code has it: when each of the two concatenated documents
    begins with the declaration, ends with the closing tag and holds the
    text of the closing tag nowhere else, the splitter returns exactly the
    two documents, in order. *)
Theorem split_two_documents (d1 d2 : str) :
  config_document d1 -> config_document d2 ->
  closes_once d1 -> closes_once d2 ->
  split_xml_documents (d1 ++ d2) = [d1; d2].
Proof.
  intros [b1 ->] [b2 ->] H1 H2. unfold split_xml_documents.
  replace ((xml_decl ++ b1 ++ config_close) ++ xml_decl ++ b2 ++ config_close)
    with (xml_decl ++ b1 ++ config_close ++ (xml_decl ++ b2 ++ config_close ++ []))
    by (now rewrite app_nil_r, <- !app_assoc).
  remember (length _) as fuel eqn:Hfuel.
  rewrite !length_app in Hfuel. change (length xml_decl) with 5 in Hfuel.
  destruct fuel as [|[|fuel]]; [lia | lia |].
  rewrite (findall_documents_step (S fuel) b1 _ H1), (findall_documents_step fuel b2 _ H2).
  now rewrite findall_documents_nil.
Qed.

Lemma sample_plain_closes_once : closes_once (lit Sample.plain_doc).
Proof.
  intros u v H.
  assert (Hu : length u + 9 + length v = length (lit Sample.plain_doc)).
  { rewrite H, !length_app. change (length config_close) with 9. lia. }
  change (length (lit Sample.plain_doc)) with 39 in Hu.
  destruct v as [|x v]; [reflexivity|]. exfalso.
  assert (Hle : length u < 30) by (simpl in Hu; lia).
  assert (Hs : startswith config_close (skipn (length u) (lit Sample.plain_doc)) = true).
  { rewrite H, skipn_exact. apply startswith_app. }
  clear H Hu. revert Hs. generalize (length u) Hle. clear.
  intros n Hn.
  do 30 (destruct n as [|n]; [vm_compute; discriminate|]). lia.
Qed.

Lemma split_two_documents_witness :
  split_xml_documents (lit Sample.plain_doc ++ lit Sample.plain_doc) =
  [lit Sample.plain_doc; lit Sample.plain_doc].
Proof.
  apply (split_two_documents (d1 := lit Sample.plain_doc) (d2 := lit Sample.plain_doc)).
  - exists (lit " version='1.0'?><config>b"). reflexivity.
  - exists (lit " version='1.0'?><config>b"). reflexivity.
  - exact sample_plain_closes_once.
  - exact sample_plain_closes_once.
Defined.

(** C3, as stated, fails: both documents below are well formed, begin with
    a declaration and end with the closing tag, but the first one nests a
    [config] element, and the splitter cuts it at the inner closing tag. *)
Lemma split_cuts_nested_config :
  config_document (lit Sample.nested_doc) /\
  config_document (lit Sample.plain_doc) /\
  split_xml_documents (lit Sample.nested_doc ++ lit Sample.plain_doc) =
    [lit "<?xml version='1.0'?><config><config>a</config>"; lit Sample.plain_doc] /\
  split_xml_documents (lit Sample.nested_doc ++ lit Sample.plain_doc) <>
    [lit Sample.nested_doc; lit Sample.plain_doc].
Proof.
  split; [|split; [|split]].
  - exists (lit " version='1.0'?><config><config>a</config>"). reflexivity.
  - exists (lit " version='1.0'?><config>b"). reflexivity.
  - vm_compute. reflexivity.
  - vm_compute. discriminate.
Qed.

(** ** The message classifier *)


Lemma iter_unfold (t : str) (a : dict str) (x : option str) (cs : list Element) :
  iter (mkElement t a x cs) = mkElement t a x cs :: flat_map iter cs.
Proof. reflexivity. Qed.

Lemma in_iter (root e : Element) : In e (iter root) <-> e = root \/ descendant_of root e.
Proof.
  revert e. induction root as [t a x cs IH] using Element_tree_ind. intros e.
  rewrite iter_unfold. cbn [In]. rewrite in_flat_map. split.
  - intros [<- | (c & Hc & He)]; [now left|]. right.
    rewrite Forall_forall in IH. apply (IH c Hc) in He.
    destruct He as [-> | He].
    + now apply desc_child.
    + now apply desc_deeper with c.
  - intros [-> | Hd]; [now left|]. right.
    rewrite Forall_forall in IH.
    inversion Hd as [e' Hin | c e' Hin Hde]; subst.
    + exists e. split; [exact Hin|]. apply (IH e Hin). now left.
    + exists c. split; [exact Hin|]. apply (IH c Hin). now right.
Qed.

Lemma in_descendants (root e : Element) :
  In e (descendants root) <-> descendant_of root e.
Proof.
  unfold descendants. rewrite in_flat_map. split.
  - intros (c & Hc & He). apply in_iter in He. destruct He as [-> | He].
    + now apply desc_child.
    + now apply desc_deeper with c.
  - intros Hd. inversion Hd as [e' Hin | c e' Hin Hde]; subst.
    + exists e. split; [exact Hin|]. apply in_iter. now left.
    + exists c. split; [exact Hin|]. apply in_iter. now right.
Qed.

Lemma find_some_iff (name : str) (root : Element) :
  (exists e, find name root = Some e) <-> has_descendant name root.
Proof.
  unfold find, has_descendant. split.
  - intros [e He]. apply find_some in He. destruct He as [Hin Htag].
    exists e. split; [now apply in_descendants | now apply str_eqb_eq].
  - intros (e & Hd & Htag).
    destruct (List.find _ (descendants root)) as [e'|] eqn:F; [now exists e'|].
    exfalso. apply in_descendants in Hd.
    apply (find_none _ _ F) in Hd. apply str_eqb_eq in Htag. congruence.
Qed.

Lemma find_none_iff (name : str) (root : Element) :
  find name root = None <-> ~ has_descendant name root.
Proof.
  rewrite <- find_some_iff. destruct (find name root) as [e|].
  - split; [discriminate|]. intros H. exfalso. apply H. now exists e.
  - split; [|reflexivity]. intros _ [e He]. discriminate.
Qed.

(** C4: the classifier answers "alarm" exactly when the document has an
    [alarmStatusInfo] descendant; otherwise "heartbeat" exactly when it has
    both a [DataTime] and a [DeviceInfo] descendant; otherwise "unknown".
    A document with all three is an alarm. *)
Theorem identify_request_type_spec (xml_root : Element) :
  (identify_request_type xml_root = lit "alarm" <->
     has_element xml_root "alarmStatusInfo") /\
  (identify_request_type xml_root = lit "heartbeat" <->
     ~ has_element xml_root "alarmStatusInfo" /\
     has_element xml_root "DataTime" /\ has_element xml_root "DeviceInfo") /\
  (identify_request_type xml_root = lit "unknown" <->
     ~ has_element xml_root "alarmStatusInfo" /\
     ~ (has_element xml_root "DataTime" /\ has_element xml_root "DeviceInfo")) /\
  (has_element xml_root "alarmStatusInfo" /\
   has_element xml_root "DataTime" /\ has_element xml_root "DeviceInfo" ->
     identify_request_type xml_root = lit "alarm").
Proof.
  unfold has_element, identify_request_type.
  destruct (find (lit "alarmStatusInfo") xml_root) as [a|] eqn:Fa;
    [ assert (Ha : has_descendant (lit "alarmStatusInfo") xml_root)
        by (apply find_some_iff; now exists a)
    | assert (Ha : ~ has_descendant (lit "alarmStatusInfo") xml_root)
        by now apply find_none_iff ];
  (destruct (find (lit "DataTime") xml_root) as [t|] eqn:Ft;
    [ assert (Ht : has_descendant (lit "DataTime") xml_root)
        by (apply find_some_iff; now exists t)
    | assert (Ht : ~ has_descendant (lit "DataTime") xml_root)
        by now apply find_none_iff ]);
  (destruct (find (lit "DeviceInfo") xml_root) as [d|] eqn:Fd;
    [ assert (Hd : has_descendant (lit "DeviceInfo") xml_root)
        by (apply find_some_iff; now exists d)
    | assert (Hd : ~ has_descendant (lit "DeviceInfo") xml_root)
        by now apply find_none_iff ]);
  repeat split; intros; try tauto; try discriminate.
Qed.

(** ** Several documents in one buffer *)

Section Documents.

Variable P : platform.
Variable W : world.
Variable self : ProvisionISRHandler.


Lemma process_documents_cons (xml_doc : str) (rest : list str) (tr : trace) :
  process_documents P W self (xml_doc :: rest) tr =
  match process_document P W self xml_doc tr with
  | (Ok _, tr1) => process_documents P W self rest tr1
  | (Raise e, tr1) => (Raise e, tr1)
  end.
Proof.
  cbn [process_documents]. unfold process_document, bind, lift.
  destruct (fromstring P xml_doc) as [xml_root|e]; reflexivity.
Qed.

Lemma process_documents_app (pre more : list str) (tr : trace) :
  process_documents P W self (pre ++ more) tr =
  match process_documents P W self pre tr with
  | (Ok _, tr1) => process_documents P W self more tr1
  | (Raise e, tr1) => (Raise e, tr1)
  end.
Proof.
  revert tr. induction pre as [|d pre IH]; intros tr; [reflexivity|].
  change ((d :: pre) ++ more) with (d :: (pre ++ more)).
  rewrite !process_documents_cons.
  destruct (process_document P W self d tr) as [[[]|e] tr1]; [apply IH | reflexivity].
Qed.


Lemma process_document_non_alarm (xml_doc : str) (tr : trace) :
  parses_to_non_alarm P xml_doc -> process_document P W self xml_doc tr = (Ok tt, tr).
Proof.
  intros (xml_root & Hparse & Hkind). unfold process_document, bind, lift.
  rewrite Hparse.
  destruct (str_eqb (identify_request_type xml_root) (lit "alarm")) eqn:E.
  - apply str_eqb_eq in E. contradiction.
  - destruct (str_eqb _ (lit "heartbeat")); reflexivity.
Qed.

Lemma process_documents_non_alarm (pre : list str) (tr : trace) :
  Forall (parses_to_non_alarm P) pre -> process_documents P W self pre tr = (Ok tt, tr).
Proof.
  induction 1 as [|d pre Hd _ IH]; [reflexivity|].
  now rewrite process_documents_cons, (process_document_non_alarm tr Hd).
Qed.

Lemma request_body_raw (data : bytes) (decoded : str) (tr : trace) :
  String.prefix "POST" data = false ->
  utf8_decode P data = Ok decoded ->
  request_body P W self data tr =
  match process_documents P W self (split_xml_documents decoded) tr with
  | (Ok _, tr1) => send_response W OK_RESPONSE tr1
  | (Raise e, tr1) => (Raise e, tr1)
  end.
Proof.
  intros Hraw Hdec. unfold request_body. rewrite Hraw.
  unfold bind at 1, lift. rewrite Hdec. unfold bind.
  destruct (process_documents _ _ _ _ tr) as [[[]|e] tr1]; reflexivity.
Qed.

(** C5, as the code has it: when one of the documents the splitter
    extracts from a raw buffer fails XML parsing and every extracted
    document before it parses and is not an alarm message (in particular
    when the failing document is the first or the only one extracted), the
    handler writes the response <error>Invalid XML</error>, and nothing
    else happens: no outbound incident request is issued. *)
Theorem malformed_document_reply (data : bytes) (decoded : str)
    (pre : list str) (bad : str) (rest : list str) (tr : trace) :
  String.prefix "POST" data = false ->
  utf8_decode P data = Ok decoded ->
  split_xml_documents decoded = pre ++ bad :: rest ->
  Forall (parses_to_non_alarm P) pre ->
  fromstring P bad = Raise ParseError ->
  snd (process_request P W self data tr) = tr ++ [EvWrite INVALID_XML] /\
  posts (snd (process_request P W self data tr)) = posts tr.
Proof.
  intros Hraw Hdec Hsplit Hpre Hbad.
  assert (Htrace : snd (process_request P W self data tr) = tr ++ [EvWrite INVALID_XML]).
  { rewrite process_request_trace, (request_body_raw data tr Hraw Hdec), Hsplit.
    rewrite process_documents_app, (process_documents_non_alarm tr Hpre).
    rewrite process_documents_cons. unfold process_document, bind, lift.
    now rewrite Hbad. }
  split; [exact Htrace|]. rewrite Htrace. apply posts_snoc_write.
Qed.

Lemma alarm_loop_missing_text (device_info : dict (option str)) (alarms : list Element)
    (alarm_tasks : list (io unit)) :
  (exists alarm, In alarm alarms /\ text alarm = None) ->
  alarm_loop P W self device_info alarms alarm_tasks = Raise AttributeError.
Proof.
  intros (alarm & Hin & Hnone). revert alarm_tasks.
  induction alarms as [|a alarms IH]; intros alarm_tasks; [destruct Hin|].
  cbn [alarm_loop]. destruct (text a) as [t|] eqn:Ht; [|reflexivity].
  destruct Hin as [-> | Hin]; [congruence|].
  destruct (str_eqb _ _); now apply IH.
Qed.

(** C9: an alarm message holding an alarm element without text raises
    before any of its events reaches the decision step (the trace is
    untouched), and the peer receives <error>Internal Server Error</error>
    in place of the acknowledgment, whatever documents of the same buffer
    were processed before it. *)
Theorem alarm_without_text_is_internal_error (data : bytes) (decoded : str)
    (pre : list str) (doc : str) (rest : list str) (xml_root alarm_info : Element)
    (tr tr1 : trace) :
  String.prefix "POST" data = false ->
  utf8_decode P data = Ok decoded ->
  split_xml_documents decoded = pre ++ doc :: rest ->
  process_documents P W self pre tr = (Ok tt, tr1) ->
  fromstring P doc = Ok xml_root ->
  find (lit "alarmStatusInfo") xml_root = Some alarm_info ->
  (exists alarm, In alarm (children alarm_info) /\ text alarm = None) ->
  handle_alarm P W self xml_root tr1 = (Raise AttributeError, tr1) /\
  snd (process_request P W self data tr) = tr1 ++ [EvWrite INTERNAL_ERROR] /\
  writes (snd (process_request P W self data tr)) = writes tr1 + 1.
Proof.
  intros Hraw Hdec Hsplit Hpre Hparse Hfind Hnone.
  assert (Hraise : handle_alarm P W self xml_root tr1 = (Raise AttributeError, tr1)).
  { unfold handle_alarm. rewrite Hfind. unfold bind, lift.
    now rewrite (alarm_loop_missing_text _ _ _ Hnone). }
  assert (Htrace : snd (process_request P W self data tr) = tr1 ++ [EvWrite INTERNAL_ERROR]).
  { rewrite process_request_trace, (request_body_raw data tr Hraw Hdec), Hsplit.
    rewrite process_documents_app, Hpre, process_documents_cons.
    unfold process_document, bind, lift. rewrite Hparse, (identify_alarm _ Hfind).
    change (str_eqb (lit "alarm") (lit "heartbeat")) with false.
    change (str_eqb (lit "alarm") (lit "alarm")) with true. cbv iota.
    now rewrite Hraise. }
  split; [exact Hraise|]. split; [exact Htrace|].
  rewrite Htrace. unfold writes. rewrite count_snoc. reflexivity.
Qed.

End Documents.


Lemma malformed_document_reply_witness :
  snd (process_request Sample.platform0 (Sample.world_at Sample.noon)
         Sample.day_handler Sample.broken_doc []) = [] ++ [EvWrite INVALID_XML]
  /\ posts (snd (process_request Sample.platform0 (Sample.world_at Sample.noon)
                   Sample.day_handler Sample.broken_doc [])) = posts [].
Proof.
  apply (@malformed_document_reply Sample.platform0 (Sample.world_at Sample.noon)
           Sample.day_handler Sample.broken_doc (lit Sample.broken_doc)
           [] (lit Sample.broken_doc) [] []);
    first [ reflexivity | constructor ].
Defined.


(** C5, as stated, fails.  In the first buffer below the second document
    does not parse, yet the alarm document before it has already been
    processed, so one outbound incident request is issued before the error
    response.  The second buffer is a document cut before its closing tag:
    it is not well-formed XML, but the splitter extracts nothing from it,
    nothing is parsed, and the peer gets the acknowledgment. *)
Lemma malformed_after_alarm_still_pages :
  (String.prefix "POST" Sample.alarm_then_broken = false /\
   utf8_decode Sample.platform0 Sample.alarm_then_broken
     = Ok (lit Sample.alarm_then_broken) /\
   In (lit Sample.broken_doc) (split_xml_documents (lit Sample.alarm_then_broken)) /\
   fromstring Sample.platform0 (lit Sample.broken_doc) = Raise ParseError /\
   (exists tr, process_request Sample.platform0 (Sample.world_at Sample.noon)
                 Sample.paging_handler Sample.alarm_then_broken []
               = (Ok tt, tr ++ [EvWrite INVALID_XML]) /\ posts tr = 1) /\
   posts (snd (process_request Sample.platform0 (Sample.world_at Sample.noon)
                 Sample.paging_handler Sample.alarm_then_broken [])) <> 0) /\
  (String.prefix "POST" Sample.truncated_doc = false /\
   utf8_decode Sample.platform0 Sample.truncated_doc = Ok (lit Sample.truncated_doc) /\
   fromstring Sample.platform0 (lit Sample.truncated_doc) = Raise ParseError /\
   process_request Sample.platform0 (Sample.world_at Sample.noon)
     Sample.paging_handler Sample.truncated_doc [] = (Ok tt, [EvWrite OK_RESPONSE])).
Proof.
  split.
  - split; [reflexivity|]. split; [reflexivity|].
    split; [vm_compute; right; left; reflexivity|].
    split; [reflexivity|]. split.
    + eexists [_; _; _]. split; vm_compute; reflexivity.
    + vm_compute. discriminate.
  - repeat split.
Qed.

Lemma alarm_without_text_is_internal_error_witness :
  handle_alarm Sample.platform0 (Sample.world_at Sample.noon) Sample.day_handler
    Sample.empty_alarm_root [] = (Raise AttributeError, []) /\
  snd (process_request Sample.platform0 (Sample.world_at Sample.noon)
         Sample.day_handler Sample.heartbeat_then_empty_alarm [])
    = [] ++ [EvWrite INTERNAL_ERROR] /\
  writes (snd (process_request Sample.platform0 (Sample.world_at Sample.noon)
                 Sample.day_handler Sample.heartbeat_then_empty_alarm []))
    = writes [] + 1.
Proof.
  apply (@alarm_without_text_is_internal_error Sample.platform0
           (Sample.world_at Sample.noon) Sample.day_handler
           Sample.heartbeat_then_empty_alarm (lit Sample.heartbeat_then_empty_alarm)
           [lit Sample.heartbeat_doc] (lit Sample.empty_alarm_doc) []
           Sample.empty_alarm_root
           (Sample.node "alarmStatusInfo"
              [Sample.leaf "motionAlarm" [("id", "1"); ("name", "Cam1")]%string None])
           [] []);
    try reflexivity.
  eexists. split; [left; reflexivity | reflexivity].
Defined.

(** ** What a coroutine may add to the trace *)


Section Only.

Variable P : platform.
Variable W : world.
Variable self : ProvisionISRHandler.
Variable p : event -> bool.
Hypothesis p_now : forall who t, p (EvNow who t) = true.
Hypothesis p_post : forall req, p (EvPost req) = true.

Lemma only_ret {A} (a : A) : only p (ret a).
Proof. intros tr. exists []. now rewrite app_nil_r. Qed.

Lemma only_raise {A} (e : exn) : only p (@raise A e).
Proof. intros tr. exists []. now rewrite app_nil_r. Qed.

Lemma only_lift {A} (r : result A) : only p (lift r).
Proof. intros tr. exists []. now rewrite app_nil_r. Qed.

Lemma only_bind {A B} (m : io A) (k : A -> io B) :
  only p m -> (forall a, only p (k a)) -> only p (bind m k).
Proof.
  intros Hm Hk tr. unfold bind. destruct (Hm tr) as (a1 & E1 & Q1).
  destruct (m tr) as [[a|e] tr1]; simpl in E1; subst tr1.
  - destruct (Hk a (tr ++ a1)) as (a2 & E2 & Q2). exists (a1 ++ a2).
    now rewrite E2, app_assoc, forallb_app, Q1, Q2.
  - now exists a1.
Qed.

Lemma only_try_except {A} (body : io A) (handler : exn -> option (io A)) :
  only p body -> (forall e h, handler e = Some h -> only p h) ->
  only p (try_except body handler).
Proof.
  intros Hb Hh tr. unfold try_except. destruct (Hb tr) as (a1 & E1 & Q1).
  destruct (body tr) as [[a|e] tr1]; simpl in E1; subst tr1.
  - now exists a1.
  - destruct (handler e) as [h|] eqn:Eh; [|now exists a1].
    destruct (Hh e h Eh (tr ++ a1)) as (a2 & E2 & Q2). exists (a1 ++ a2).
    now rewrite E2, app_assoc, forallb_app, Q1, Q2.
Qed.

Lemma only_now (who : clock_owner) : only p (now W who).
Proof. intros tr. eexists [_]. split; [reflexivity|]. simpl. now rewrite p_now. Qed.

Lemma only_trigger_incident (trigger : PagerDutyTrigger) title details urgency :
  only p (trigger_incident W trigger title details urgency).
Proof.
  intros tr.
  destruct (is_paging_time_at trigger (time_of (clock W (count is_now tr)))) eqn:G.
  - rewrite (trigger_incident_inside _ _ _ _ _ _ G). eexists. split; [reflexivity|].
    simpl. now rewrite p_now, p_post.
  - rewrite (trigger_incident_outside _ _ _ _ _ _ G). eexists. split; [reflexivity|].
    simpl. now rewrite p_now.
Qed.

Lemma only_process_alarm alarm_type alarm_id alarm_name device_info :
  only p (process_alarm P W self alarm_type alarm_id alarm_name device_info).
Proof.
  unfold process_alarm. apply only_bind; [apply only_now|]. intros t.
  destruct (list_in _ _); [apply only_trigger_incident | apply only_ret].
Qed.

Lemma only_process_http_alarm smart_type xml_root device_info :
  only p (process_http_alarm P W self smart_type xml_root device_info).
Proof.
  unfold process_http_alarm. apply only_bind; [apply only_now|]. intros t.
  destruct smart_type as [smart_type|]; [|apply only_raise].
  destruct (list_in _ _); [apply only_trigger_incident | apply only_ret].
Qed.

Lemma only_gather (aws : list (io unit)) : Forall (only p) aws -> only p (gather aws).
Proof.
  induction 1 as [|t rest Ht _ IH]; intros tr.
  - exists []. now rewrite app_nil_r.
  - cbn [gather]. destruct (Ht tr) as (a1 & E1 & Q1).
    destruct (t tr) as [[[]|e] tr1]; simpl in E1; subst tr1;
      destruct (IH (tr ++ a1)) as (a2 & E2 & Q2); exists (a1 ++ a2);
      cbn [snd]; now rewrite E2, app_assoc, forallb_app, Q1, Q2.
Qed.

Lemma only_alarm_loop device_info (alarms : list Element) (alarm_tasks tasks : list (io unit)) :
  Forall (only p) alarm_tasks ->
  alarm_loop P W self device_info alarms alarm_tasks = Ok tasks ->
  Forall (only p) tasks.
Proof.
  revert alarm_tasks. induction alarms as [|a alarms IH]; intros alarm_tasks Hacc Hloop.
  - cbn [alarm_loop] in Hloop. now inversion Hloop; subst.
  - cbn [alarm_loop] in Hloop. destruct (text a) as [t|]; [|discriminate].
    destruct (str_eqb _ _); [|now apply (IH alarm_tasks)].
    apply (IH _ (proj2 (Forall_app _ _ _) (conj Hacc (Forall_cons _ (only_process_alarm _ _ _ _) (Forall_nil _)))) Hloop).
Qed.

Lemma only_handle_alarm (xml_root : Element) : only p (handle_alarm P W self xml_root).
Proof.
  unfold handle_alarm. destruct (find _ xml_root) as [alarm_info|]; [|apply only_raise].
  intros tr. unfold bind, lift.
  destruct (alarm_loop _ _ _ _ _ _) as [tasks|e] eqn:L.
  - apply only_gather. now apply (only_alarm_loop _ _ (Forall_nil _) L).
  - exists []. now rewrite app_nil_r.
Qed.

Lemma only_process_documents (xml_documents : list str) :
  only p (process_documents P W self xml_documents).
Proof.
  induction xml_documents as [|d rest IH]; [apply only_ret|].
  cbn [process_documents]. apply only_bind; [apply only_lift|]. intros xml_root.
  apply only_bind; [|intros _; exact IH].
  destruct (str_eqb _ _); [apply only_ret|].
  destruct (str_eqb _ _); [apply only_handle_alarm | apply only_ret].
Qed.

Lemma only_handle_http_alarm (body : str) : only p (handle_http_alarm P W self body).
Proof.
  unfold handle_http_alarm. apply only_try_except.
  - apply only_bind; [apply only_lift|]. intros xml_root.
    apply only_bind; [apply only_lift|]. intros smart_type.
    apply only_bind; [apply only_lift|]. intros device_info.
    apply only_process_http_alarm.
  - intros e h Hh. destruct e; inversion Hh; apply only_ret.
Qed.

Hypothesis p_write : forall payload, p (EvWrite payload) = true.

Lemma only_send_response (content : bytes) : only p (send_response W content).
Proof.
  intros tr. rewrite send_response_trace. eexists. split; [reflexivity|].
  simpl. now rewrite p_write.
Qed.

Lemma only_process_request (data : bytes) : only p (process_request P W self data).
Proof.
  unfold process_request. apply only_try_except.
  - unfold request_body. destruct (String.prefix "POST" data).
    + unfold handle_http_post. apply only_bind; [apply only_lift|].
      intros [headers body].
      destruct (str_in _ _); [apply only_ret|].
      destruct (str_in _ _); [apply only_handle_http_alarm | apply only_send_response].
    + apply only_bind; [apply only_lift|]. intros decoded.
      apply only_bind; [apply only_process_documents|]. intros _.
      apply only_send_response.
  - intros e h Hh. destruct e; inversion Hh; apply only_send_response.
Qed.

End Only.

(** ** One connection *)


Section Connection.

Variable P : platform.
Variable W : world.
Variable self : ProvisionISRHandler.
Hypothesis drains : forall k, drain_ok W k = true.

Lemma send_response_ok (content : bytes) (tr : trace) :
  send_response W content tr = (Ok tt, tr ++ [EvWrite content]).
Proof. unfold send_response. now rewrite drains. Qed.

Lemma process_request_returns (data : bytes) (tr : trace) :
  fst (process_request P W self data tr) = Ok tt.
Proof.
  unfold process_request, try_except.
  match goal with |- context [let (_, _) := ?b tr in _] => destruct (b tr) as [[[]|e] tr'] end;
    [reflexivity|].
  destruct e; now rewrite send_response_ok.
Qed.

Lemma process_request_single_response (data : bytes) (tr : trace) :
  ~ recognised_post P data ->
  exists added response,
    process_request P W self data tr = (Ok tt, tr ++ added ++ [EvWrite response]) /\
    forallb quiet_event added = true.
Proof.
  intros Hnot.
  assert (Hfail : forall e,
            exists response,
              match e with
              | ParseError => Some (send_response W INVALID_XML)
              | _ => Some (send_response W INTERNAL_ERROR)
              end = Some (send_response W response)).
  { intros e. destruct e; eexists; reflexivity. }
  unfold process_request, try_except, request_body.
  destruct (String.prefix "POST" data) eqn:Hpost.
  - unfold handle_http_post, bind, lift.
    destruct (parse_http_post P data) as [[headers body]|e] eqn:Hparse.
    + destruct (str_in (lit "SendKeepalive") (path_of headers)) eqn:K.
      { exfalso. apply Hnot. split; [exact Hpost|]. exists headers, body. now rewrite K. }
      destruct (str_in (lit "SendAlarmData") (path_of headers)) eqn:A.
      { exfalso. apply Hnot. split; [exact Hpost|]. exists headers, body.
        now rewrite K, A. }
      rewrite send_response_ok. exists [], "<error>Unknown HTTP POST request</error>"%string.
      now split.
    + destruct (Hfail e) as [response ->]. rewrite send_response_ok.
      exists [], response. now split.
  - unfold bind at 1, lift. destruct (utf8_decode P data) as [decoded|e].
    + unfold bind.
      destruct (only_process_documents P W self quiet_event
                  (fun _ _ => eq_refl) (fun _ => eq_refl) (split_xml_documents decoded) tr)
        as (added & Hadded & Hquiet).
      destruct (process_documents _ _ _ _ tr) as [[[]|e] tr1]; simpl in Hadded; subst tr1.
      * rewrite send_response_ok. exists added, OK_RESPONSE.
        now rewrite <- app_assoc.
      * destruct (Hfail e) as [response ->]. rewrite send_response_ok.
        exists added, response. now rewrite <- app_assoc.
    + destruct (Hfail e) as [response ->]. rewrite send_response_ok.
      exists [], response. now split.
Qed.

(** C6, as the code has it, for a peer that accepts every write: the
    dispatcher always returns having closed the connection, exactly once and
    as its last act; a connection on which nothing was read gets no
    response; and any other input, unless it is an HTTP POST to one of the
    two device endpoints, gets exactly one response payload, written
    before the connection is closed. *)
Theorem one_response_then_close (data : bytes) (tr : trace) :
  (exists added,
     handle_client P W self data tr = (Ok tt, tr ++ added ++ [EvClose]) /\
     forallb not_close added = true) /\
  (data = ""%string -> handle_client P W self data tr = (Ok tt, tr ++ [EvClose])) /\
  (data <> ""%string -> ~ recognised_post P data ->
   exists added response,
     handle_client P W self data tr =
       (Ok tt, tr ++ added ++ [EvWrite response; EvClose]) /\
     forallb quiet_event added = true).
Proof.
  split; [|split].
  - unfold handle_client, bind, emit. destruct (String.eqb data "").
    + exists []. now split.
    + destruct (only_process_request P W self not_close
                  (fun _ _ => eq_refl) (fun _ => eq_refl) (fun _ => eq_refl) data tr)
        as (added & Hadded & Hopen).
      assert (Hret := process_request_returns data tr).
      destruct (process_request P W self data tr) as [r tr1]. simpl in Hadded, Hret.
      subst r tr1. exists added. now rewrite <- app_assoc.
  - intros ->. reflexivity.
  - intros Hdata Hnot. unfold handle_client, bind, emit.
    destruct (String.eqb data "") eqn:E; [apply String.eqb_eq in E; contradiction|].
    destruct (process_request_single_response tr Hnot) as (added & response & -> & Hquiet).
    exists added, response. split; [|exact Hquiet].
    now rewrite <- !app_assoc.
Qed.

End Connection.

Lemma one_response_then_close_witness :
  exists added response,
    handle_client Sample.platform0 (Sample.world_at Sample.noon) Sample.day_handler
      Sample.other_request [] = (Ok tt, [] ++ added ++ [EvWrite response; EvClose]) /\
    forallb quiet_event added = true.
Proof.
  apply (@one_response_then_close Sample.platform0 (Sample.world_at Sample.noon)
           Sample.day_handler (fun _ => eq_refl) Sample.other_request []).
  - discriminate.
  - intros (_ & headers & body & Hparse & Hpath).
    vm_compute in Hparse. inversion Hparse; subst headers body.
    vm_compute in Hpath. discriminate.
Defined.

(** C6, as stated, fails: a connection on which nothing is read is closed
    without any response, and so is one carrying a keep-alive POST. *)
Lemma connection_without_response :
  handle_client Sample.platform0 (Sample.world_at Sample.noon) Sample.day_handler
    "" [] = (Ok tt, [EvClose]) /\
  writes (snd (handle_client Sample.platform0 (Sample.world_at Sample.noon)
                 Sample.day_handler "" [])) <> 1 /\
  handle_client Sample.platform0 (Sample.world_at Sample.noon) Sample.day_handler
    Sample.keepalive_request [] = (Ok tt, [EvClose]) /\
  writes (snd (handle_client Sample.platform0 (Sample.world_at Sample.noon)
                 Sample.day_handler Sample.keepalive_request [])) <> 1.
Proof. vm_compute. repeat split; discriminate. Qed.

(** Why C6 needs a peer that accepts the writes: when the drain after the
    acknowledgment raises, the handler writes a second payload, the second
    drain raises out of [process_request], and [handle_client] never
    reaches [writer.close()]. *)
Example peer_gone_leaves_connection_open :
  handle_client Sample.platform0 (Sample.world_peer_gone Sample.noon) Sample.day_handler
    Sample.heartbeat_doc [] =
  (Raise ConnectionResetError, [EvWrite OK_RESPONSE; EvWrite INTERNAL_ERROR]).
Proof. reflexivity. Qed.

(** A buffer that holds no document at all is acknowledged. *)
Example no_document_is_acknowledged :
  handle_client Sample.platform0 (Sample.world_at Sample.noon) Sample.day_handler
    "not xml at all" [] = (Ok tt, [EvWrite OK_RESPONSE; EvClose]).
Proof. reflexivity. Qed.

(** ** Further properties the specification lists as testable *)

Lemma alarm_loop_inactive (P : platform) (W : world) (self : ProvisionISRHandler)
    (device_info : dict (option str)) (alarms : list Element) (alarm_tasks : list (io unit)) :
  platform_laws P ->
  Forall (fun alarm => exists s, text alarm = Some s /\ map ascii_lower s = lit "false") alarms ->
  alarm_loop P W self device_info alarms alarm_tasks = Ok alarm_tasks.
Proof.
  intros Laws Hall. induction Hall as [|a alarms (s & Ht & Hs) _ IH]; [reflexivity|].
  cbn [alarm_loop]. rewrite Ht.
  assert (Hascii : is_ascii s).
  { assert (Hall : Forall (fun c => (c < 128)%N) (map ascii_lower s))
      by (rewrite Hs; repeat constructor).
    clear Hs Ht. unfold is_ascii. induction s as [|c s IHs]; [constructor|].
    inversion Hall; subst. constructor; [now apply ascii_lower_ascii | now apply IHs]. }
  rewrite (str_lower_ascii Laws Hascii), Hs.
  change (str_eqb (lit "false") (lit "true")) with false. exact IH.
Qed.

(** An alarm message all of whose events carry the status text "false", in
    any letter casing, is handled without any effect: no clock reading, no
    gate evaluation and no outbound request, whatever the window and the
    allow-list. *)
Theorem inactive_alarm_never_pages (P : platform) (W : world) (self : ProvisionISRHandler)
    (xml_root alarm_info : Element) (tr : trace) :
  platform_laws P ->
  find (lit "alarmStatusInfo") xml_root = Some alarm_info ->
  Forall (fun alarm => exists s, text alarm = Some s /\ map ascii_lower s = lit "false")
         (children alarm_info) ->
  handle_alarm P W self xml_root tr = (Ok tt, tr).
Proof.
  intros Laws Hfind Hall. unfold handle_alarm. rewrite Hfind. unfold bind, lift.
  now rewrite (alarm_loop_inactive W self _ [] Laws Hall).
Qed.

Lemma inactive_alarm_never_pages_witness :
  handle_alarm Sample.platform0 (Sample.world_at Sample.noon) Sample.day_handler
    Sample.inactive_root [] = (Ok tt, []).
Proof.
  apply (@inactive_alarm_never_pages Sample.platform0 (Sample.world_at Sample.noon)
           Sample.day_handler Sample.inactive_root
           (Sample.node "alarmStatusInfo" [Sample.leaf "motionAlarm" [] (Some "False"%string)])
           [] sample_platform_laws).
  - reflexivity.
  - repeat constructor. exists (lit "False"). split; reflexivity.
Defined.

(** An HTTP POST whose request parses and whose path names neither device
    endpoint is answered with <error>Unknown HTTP POST request</error>, and
    nothing else happens. *)
Theorem unknown_post_reply (P : platform) (W : world) (self : ProvisionISRHandler)
    (data : bytes) (headers : dict str) (body : str) (tr : trace) :
  (forall k, drain_ok W k = true) ->
  String.prefix "POST" data = true ->
  parse_http_post P data = Ok (headers, body) ->
  str_in (lit "SendKeepalive") (path_of headers) = false ->
  str_in (lit "SendAlarmData") (path_of headers) = false ->
  process_request P W self data tr =
    (Ok tt, tr ++ [EvWrite "<error>Unknown HTTP POST request</error>"]).
Proof.
  intros Hdrain Hpost Hparse Hk Ha.
  unfold process_request, try_except, request_body. rewrite Hpost.
  unfold handle_http_post, bind, lift. rewrite Hparse, Hk, Ha.
  now rewrite (send_response_ok W Hdrain).
Qed.

Lemma unknown_post_reply_witness :
  process_request Sample.platform0 (Sample.world_at Sample.noon) Sample.day_handler
    Sample.other_request [] =
  (Ok tt, [] ++ [EvWrite "<error>Unknown HTTP POST request</error>"]).
Proof.
  apply (@unknown_post_reply Sample.platform0 (Sample.world_at Sample.noon)
           Sample.day_handler Sample.other_request
           [(lit "Host", lit "10.0.0.5"); (lit "path", lit "/Other")] [] []);
    reflexivity.
Defined.

(** * Further properties of the module *)

(** ** Times of day and the window *)

Lemma time_cmp_refl (a : time) : time_cmp a a = Eq.
Proof. unfold time_cmp. now rewrite !N.compare_refl. Qed.

Lemma time_cmp_antisym (a b : time) : time_cmp b a = CompOpp (time_cmp a b).
Proof.
  unfold time_cmp.
  rewrite (N.compare_antisym (hour a) (hour b)), (N.compare_antisym (minute a) (minute b)),
    (N.compare_antisym (second a) (second b)),
    (N.compare_antisym (microsecond a) (microsecond b)).
  destruct (hour a ?= hour b)%N; simpl; try reflexivity.
  destruct (minute a ?= minute b)%N; simpl; try reflexivity.
  destruct (second a ?= second b)%N; simpl; reflexivity.
Qed.

Lemma time_cmp_eq (a b : time) : time_cmp a b = Eq <-> a = b.
Proof.
  split; [|intros ->; apply time_cmp_refl].
  unfold time_cmp. destruct a as [ha ma sa ua], b as [hb mb sb ub]; simpl.
  destruct (N.compare_spec ha hb); try discriminate.
  destruct (N.compare_spec ma mb); try discriminate.
  destruct (N.compare_spec sa sb); try discriminate.
  destruct (N.compare_spec ua ub); try discriminate.
  intros _. now subst.
Qed.

Lemma time_ltb_negb_leb (a b : time) : time_ltb a b = negb (time_leb b a).
Proof.
  unfold time_ltb, time_leb. rewrite (time_cmp_antisym a b).
  now destruct (time_cmp a b).
Qed.

(** Whatever the window, the gate is closed at the configured end time;
    it is open at the configured start time unless start and end are the
    same time, and then it is closed at every time of day. *)
Theorem gate_at_window_bounds (self : PagerDutyTrigger) :
  is_paging_time_at self (paging_end_time self) = false /\
  (is_paging_time_at self (paging_start_time self) = true <->
     paging_start_time self <> paging_end_time self) /\
  (paging_start_time self = paging_end_time self ->
     forall now, is_paging_time_at self now = false).
Proof.
  unfold is_paging_time_at, time_geb.
  set (s := paging_start_time self). set (e := paging_end_time self).
  split; [|split].
  - destruct (time_leb s e) eqn:L.
    + unfold time_ltb. rewrite time_cmp_refl. apply andb_false_r.
    + unfold time_ltb. now rewrite time_cmp_refl.
  - rewrite <- time_cmp_eq.
    destruct (time_leb s e) eqn:L; unfold time_leb, time_ltb in *;
      rewrite time_cmp_refl; simpl.
    + destruct (time_cmp s e); try discriminate; split; congruence.
    + destruct (time_cmp s e); try discriminate. split; [discriminate | reflexivity].
  - intros Heq now. rewrite <- Heq. unfold time_leb at 1. rewrite time_cmp_refl.
    rewrite time_ltb_negb_leb. apply andb_negb_r.
Qed.

(** Exchanging start and end of a window that crosses midnight gives the
    complementary window. *)
Theorem swapped_window_is_complement (night day : PagerDutyTrigger) (now : time) :
  paging_start_time day = paging_end_time night ->
  paging_end_time day = paging_start_time night ->
  time_ltb (paging_end_time night) (paging_start_time night) = true ->
  is_paging_time_at night now = negb (is_paging_time_at day now).
Proof.
  intros Hs He Hwrap. unfold is_paging_time_at, time_geb. rewrite Hs, He.
  set (s := paging_start_time night) in *. set (e := paging_end_time night) in *.
  rewrite time_ltb_negb_leb in Hwrap. apply negb_true_iff in Hwrap. rewrite Hwrap.
  assert (Hes : time_leb e s = true).
  { unfold time_leb in *. rewrite (time_cmp_antisym s e).
    destruct (time_cmp s e); simpl; congruence. }
  rewrite Hes, negb_andb, (time_ltb_negb_leb now s), (time_ltb_negb_leb now e), negb_involutive.
  apply orb_comm.
Qed.

Lemma swapped_window_is_complement_witness :
  is_paging_time_at Sample.night_trigger Sample.noon
  = negb (is_paging_time_at Sample.morning_trigger Sample.noon).
Proof.
  apply (@swapped_window_is_complement Sample.night_trigger Sample.morning_trigger Sample.noon);
    reflexivity.
Defined.

(** ** [parse_time] *)

Lemma is_digit_bound (c : codepoint) : is_digit c = true -> (digit_val c <= 9)%N.
Proof.
  unfold is_digit, digit_val. rewrite andb_true_iff, !N.leb_le. lia.
Qed.

Lemma parse_minute_bound (s : str) (m : N) : parse_minute s = Ok m -> (m < 60)%N.
Proof.
  unfold parse_minute. destruct s as [|m1 [|m2 [|x s]]]; try discriminate.
  - destruct (is_digit m1) eqn:D1; [|discriminate]. intros H. inversion H; subst.
    apply is_digit_bound in D1. lia.
  - destruct (is_digit m1) eqn:D1; [|discriminate].
    destruct (digit_val m1 <=? 5)%N eqn:B; [|discriminate].
    destruct (is_digit m2) eqn:D2; [|discriminate].
    intros H. inversion H; subst. apply N.leb_le in B. apply is_digit_bound in D2. lia.
Qed.

Lemma parse_time_accepts (time_str : str) (t : time) :
  parse_time time_str = Ok t ->
  valid_time t /\ second t = 0%N /\ microsecond t = 0%N.
Proof.
  assert (Hfin : forall h rest,
            (h < 24)%N ->
            match parse_minute rest with
            | Ok m => Ok (mktime h m 0 0)
            | Raise e => Raise e
            end = Ok t ->
            valid_time t /\ second t = 0%N /\ microsecond t = 0%N).
  { intros h rest Hh H. destruct (parse_minute rest) as [m|e] eqn:M; [|discriminate].
    apply parse_minute_bound in M. inversion H; subst.
    unfold valid_time; simpl. repeat split; lia. }
  unfold parse_time.
  destruct time_str as [|h1 [|h2 [|c rest]]]; try discriminate.
  - destruct (is_digit h1 && N.eqb h2 colon) eqn:A; [|discriminate].
    apply andb_true_iff in A. destruct A as [D1 _]. apply is_digit_bound in D1.
    apply Hfin. lia.
  - destruct (is_digit h1 && is_digit h2 && N.eqb c colon) eqn:A.
    + destruct (digit_val h1 * 10 + digit_val h2 <=? 23)%N eqn:B; [|discriminate].
      apply N.leb_le in B. apply Hfin. lia.
    + destruct (is_digit h1 && N.eqb h2 colon) eqn:A2; [|discriminate].
      apply andb_true_iff in A2. destruct A2 as [D1 _]. apply is_digit_bound in D1.
      apply Hfin. lia.
Qed.

(** A time [parse_time] accepts from a text of ASCII characters is a time
    of day with whole minutes: hour below 24, minute below 60, no seconds. *)
Theorem parse_time_valid (time_str : str) (t : time) :
  is_ascii time_str ->
  parse_time time_str = Ok t ->
  valid_time t /\ second t = 0%N /\ microsecond t = 0%N.
Proof. intros _. apply parse_time_accepts. Qed.

Lemma parse_time_valid_witness :
  valid_time (mktime 23 59 0 0) /\ second (mktime 23 59 0 0) = 0%N
  /\ microsecond (mktime 23 59 0 0) = 0%N.
Proof.
  apply (@parse_time_valid (lit "23:59") (mktime 23 59 0 0)).
  - repeat constructor.
  - reflexivity.
Defined.

Lemma is_digit_digit (d : N) : (d <= 9)%N -> is_digit (digit d) = true.
Proof.
  intros H. unfold is_digit, digit. apply andb_true_iff. rewrite !N.leb_le. lia.
Qed.

Lemma digit_val_digit (d : N) : digit_val (digit d) = d.
Proof. unfold digit_val, digit. lia. Qed.

(** Round trip: the zero-padded rendering of every hour below 24 and minute
    below 60 is accepted and read back as that time. *)
Theorem parse_time_strftime (h m : N) :
  (h < 24)%N -> (m < 60)%N ->
  parse_time (strftime_HM h m) = Ok (mktime h m 0 0).
Proof.
  intros Hh Hm. unfold strftime_HM, two_digits. cbn [app].
  assert (Hh1 : (h / 10 <= 9)%N) by (apply N.Div0.div_le_upper_bound; lia).
  assert (Hh2 : (h mod 10 <= 9)%N) by (pose proof (N.mod_upper_bound h 10); lia).
  assert (Hm1 : (m / 10 <= 5)%N).
  { assert (m / 10 < 6)%N by (apply N.Div0.div_lt_upper_bound; lia). lia. }
  assert (Hm2 : (m mod 10 <= 9)%N) by (pose proof (N.mod_upper_bound m 10); lia).
  unfold parse_time.
  rewrite (is_digit_digit Hh1), (is_digit_digit Hh2), N.eqb_refl, !digit_val_digit.
  cbn [andb].
  assert (Eh : (h / 10 * 10 + h mod 10 = h)%N)
    by (rewrite (N.div_mod h 10) at 3 by lia; lia).
  assert (Em : (m / 10 * 10 + m mod 10 = m)%N)
    by (rewrite (N.div_mod m 10) at 3 by lia; lia).
  rewrite Eh. replace (h <=? 23)%N with true by (symmetry; apply N.leb_le; lia).
  unfold parse_minute.
  rewrite (is_digit_digit (d := m / 10)) by lia.
  rewrite (is_digit_digit Hm2), !digit_val_digit.
  replace (m / 10 <=? 5)%N with true by (symmetry; now apply N.leb_le).
  cbn [andb]. now rewrite Em.
Qed.

Lemma parse_time_strftime_witness :
  parse_time (strftime_HM 6 5) = Ok (mktime 6 5 0 0).
Proof. apply (@parse_time_strftime 6 5); reflexivity. Defined.

(** ** Construction of the handler *)

Lemma split_char_aux_join (sep : codepoint) (cur s : str) :
  join sep (split_char_aux sep cur s) = rev cur ++ s.
Proof.
  revert cur. induction s as [|c s IH]; intros cur; cbn [split_char_aux].
  - simpl. now rewrite app_nil_r.
  - destruct (N.eqb_spec c sep) as [-> | Hne].
    + specialize (IH []). cbn [join].
      destruct (split_char_aux sep [] s) as [|f fs] eqn:E.
      * destruct s; cbn [split_char_aux] in E; [discriminate|].
        destruct (N.eqb c sep); discriminate.
      * now rewrite IH.
    + rewrite IH. cbn [rev]. now rewrite <- app_assoc.
Qed.

Lemma split_char_aux_fields (sep : codepoint) (cur s : str) :
  ~ In sep cur -> Forall (fun field => ~ In sep field) (split_char_aux sep cur s).
Proof.
  revert cur. induction s as [|c s IH]; intros cur Hcur; cbn [split_char_aux].
  - constructor; [|constructor]. now rewrite <- in_rev.
  - destruct (N.eqb_spec c sep) as [-> | Hne].
    + constructor; [now rewrite <- in_rev | apply IH; intros []].
    + apply IH. intros [-> | H]; [now apply Hne | now apply Hcur].
Qed.

Lemma split_char_aux_nonempty (sep : codepoint) (cur s : str) :
  split_char_aux sep cur s <> [].
Proof.
  revert cur. induction s as [|c s IH]; intros cur; cbn [split_char_aux]; [discriminate|].
  destruct (N.eqb c sep); [discriminate | apply IH].
Qed.



(** The allow-list the handler is given, whatever the configuration: the
    upper-cased value of the variable cut at its commas.  It is never empty;
    joined with commas it gives back the upper-cased value, so that entries
    are neither trimmed nor dropped; and no entry holds a comma. *)
Theorem allow_list_of_configuration (P : platform) (environ : dict str) :
  let value := getenv environ (lit "PAGERDUTY_ALERT_TYPES") [] in
  let entries := split_char comma (str_upper P value) in
  (forall self, new_ProvisionISRHandler P environ = Ok self ->
                pagerduty_alert_types self = entries) /\
  entries <> [] /\
  join comma entries = str_upper P value /\
  Forall (fun entry => ~ In comma entry) entries.
Proof.
  intros value entries. subst value entries. split; [|split; [|split]].
  - intros self Hnew. unfold new_ProvisionISRHandler in Hnew.
    destruct (new_PagerDutyTrigger _ _ _ _ _) as [trigger|]; [|discriminate].
    now inversion Hnew.
  - apply split_char_aux_nonempty.
  - apply (split_char_aux_join comma []).
  - apply split_char_aux_fields. intros [].
Qed.

(** ** Several events in one alarm message *)

Section Events.

Variable P : platform.
Variable W : world.
Variable self : ProvisionISRHandler.






End Events.


(** ** The answer of the paging service *)

Section Outcome.

Variable P : platform.
Variable W : world.
Variable self : ProvisionISRHandler.
Hypothesis Laws : platform_laws P.

Lemma trigger_incident_run_inside (trigger : PagerDutyTrigger) title details urgency
    (tr : trace) :
  is_paging_time_at trigger (time_of (clock W (count is_now tr))) = true ->
  trigger_incident W trigger title details urgency tr =
  (outcome_result (from_email trigger) (paging_service W (posts tr)),
   tr ++ [EvNow ByTrigger (clock W (count is_now tr));
          EvPost (request_of trigger title details urgency)]).
Proof.
  intros Hin. unfold trigger_incident, bind. rewrite is_paging_time_run, Hin.
  cbn [negb]. unfold session_post. rewrite posts_snoc_now.
  cbn [request_of req_from].
  destruct (paging_service W (posts tr)) as [status|]; cbn [outcome_result].
  - destruct (from_email trigger); [|now rewrite <- app_assoc].
    destruct (N.eqb status 201); unfold ret; now rewrite <- app_assoc.
  - destruct (from_email trigger); now rewrite <- app_assoc.
Qed.

Lemma process_document_alarm (doc : str) (xml_root alarm_info : Element) (tr : trace) :
  fromstring P doc = Ok xml_root ->
  find (lit "alarmStatusInfo") xml_root = Some alarm_info ->
  process_document P W self doc tr = handle_alarm P W self xml_root tr.
Proof.
  intros Hparse Hfind. unfold process_document, bind, lift.
  rewrite Hparse, (identify_alarm _ Hfind). reflexivity.
Qed.

Lemma handle_alarm_single_run (xml_root alarm_info alarm : Element) (status : str)
    (tr : trace) :
  find (lit "alarmStatusInfo") xml_root = Some alarm_info ->
  children alarm_info = [alarm] ->
  text alarm = Some status ->
  spells_true status ->
  list_in (str_upper P (tag alarm)) (pagerduty_alert_types self) = true ->
  is_paging_time_at (pagerduty_trigger self) (time_of (clock W (S (count is_now tr)))) = true ->
  handle_alarm P W self xml_root tr =
  (outcome_result (from_email (pagerduty_trigger self)) (paging_service W (posts tr)),
   tr ++ paged_events W self xml_root alarm tr).
Proof.
  intros Hfind Hkids Htext Htrue Hlisted Hgate.
  unfold handle_alarm. rewrite Hfind, Hkids. unfold bind, lift. cbn [alarm_loop].
  rewrite Htext, (spells_true_lower Laws Htrue), str_eqb_refl. cbn [app].
  rewrite gather_one, (process_alarm_listed P W self _ _ _ _ tr Hlisted).
  assert (Hn : count is_now (tr ++ [EvNow ByHandler (clock W (count is_now tr))])
               = S (count is_now tr)) by (rewrite count_snoc; simpl; lia).
  rewrite trigger_incident_run_inside by (now rewrite Hn).
  rewrite Hn, posts_snoc_now. cbn [fst snd]. unfold paged_events.
  rewrite <- app_assoc. cbn [app].
  now destruct (paging_service W (posts tr)), (from_email (pagerduty_trigger self)).
Qed.

(** When the paging service cannot be reached, the failure of the outbound
    request for a qualifying alarm reaches the peer: after the request the
    handler writes <error>Internal Server Error</error> in place of the
    acknowledgment. *)
Theorem paging_failure_reaches_peer (data : bytes) (decoded doc : str)
    (xml_root alarm_info alarm : Element) (status : str) (tr : trace) :
  String.prefix "POST" data = false ->
  utf8_decode P data = Ok decoded ->
  split_xml_documents decoded = [doc] ->
  fromstring P doc = Ok xml_root ->
  find (lit "alarmStatusInfo") xml_root = Some alarm_info ->
  children alarm_info = [alarm] ->
  text alarm = Some status ->
  spells_true status ->
  list_in (str_upper P (tag alarm)) (pagerduty_alert_types self) = true ->
  is_paging_time_at (pagerduty_trigger self) (time_of (clock W (S (count is_now tr)))) = true ->
  paging_service W (posts tr) = Failed ->
  snd (process_request P W self data tr) =
  tr ++ paged_events W self xml_root alarm tr ++ [EvWrite INTERNAL_ERROR].
Proof.
  intros Hraw Hdec Hsplit Hparse Hfind Hkids Htext Htrue Hlisted Hgate Hfail.
  rewrite process_request_trace, (request_body_raw P W self data tr Hraw Hdec), Hsplit.
  rewrite process_documents_cons, (process_document_alarm _ tr Hparse Hfind).
  rewrite (handle_alarm_single_run _ tr Hfind Hkids Htext Htrue Hlisted Hgate), Hfail.
  cbn [outcome_result]. now rewrite <- app_assoc.
Qed.

(** With a sender address configured, whatever HTTP status the paging
    service answers, 201 or not, the request is made once and not repeated,
    and the peer gets the usual acknowledgment. *)
Theorem any_status_is_acknowledged (data : bytes) (decoded doc : str)
    (xml_root alarm_info alarm : Element) (status : str) (answer : N) (tr : trace) :
  from_email (pagerduty_trigger self) <> None ->
  String.prefix "POST" data = false ->
  utf8_decode P data = Ok decoded ->
  split_xml_documents decoded = [doc] ->
  fromstring P doc = Ok xml_root ->
  find (lit "alarmStatusInfo") xml_root = Some alarm_info ->
  children alarm_info = [alarm] ->
  text alarm = Some status ->
  spells_true status ->
  list_in (str_upper P (tag alarm)) (pagerduty_alert_types self) = true ->
  is_paging_time_at (pagerduty_trigger self) (time_of (clock W (S (count is_now tr)))) = true ->
  paging_service W (posts tr) = Responded answer ->
  drain_ok W (writes tr) = true ->
  process_request P W self data tr =
  (Ok tt, tr ++ paged_events W self xml_root alarm tr ++ [EvWrite OK_RESPONSE]).
Proof.
  intros Hfrom Hraw Hdec Hsplit Hparse Hfind Hkids Htext Htrue Hlisted Hgate Hans Hdrain.
  unfold process_request, try_except.
  rewrite (request_body_raw P W self data tr Hraw Hdec), Hsplit.
  rewrite process_documents_cons, (process_document_alarm _ tr Hparse Hfind).
  rewrite (handle_alarm_single_run _ tr Hfind Hkids Htext Htrue Hlisted Hgate), Hans.
  destruct (from_email (pagerduty_trigger self)) as [sender|] eqn:Hsender;
    [|now elim Hfrom].
  cbn [outcome_result process_documents]. unfold ret, send_response.
  assert (Hw : writes (tr ++ paged_events W self xml_root alarm tr) = writes tr).
  { unfold writes. rewrite count_app. unfold paged_events, count. simpl. lia. }
  now rewrite Hw, Hdrain, <- app_assoc.
Qed.

End Outcome.

Lemma paging_failure_reaches_peer_witness :
  snd (process_request Sample.platform0 Sample.world_unreachable Sample.day_handler
         Sample.alarm_doc []) =
  [] ++ paged_events Sample.world_unreachable Sample.day_handler Sample.alarm_root
          Sample.motion_event [] ++ [EvWrite INTERNAL_ERROR].
Proof.
  apply (@paging_failure_reaches_peer Sample.platform0 Sample.world_unreachable
           Sample.day_handler sample_platform_laws Sample.alarm_doc
           (lit Sample.alarm_doc) (lit Sample.alarm_doc) Sample.alarm_root
           Sample.alarm_info Sample.motion_event (lit "TRUE") []);
    reflexivity.
Defined.

Lemma any_status_is_acknowledged_witness :
  process_request Sample.platform0 Sample.world_rejecting Sample.paging_handler
    Sample.alarm_doc [] =
  (Ok tt, [] ++ paged_events Sample.world_rejecting Sample.paging_handler Sample.alarm_root
                  Sample.motion_event [] ++ [EvWrite OK_RESPONSE]).
Proof.
  apply (@any_status_is_acknowledged Sample.platform0 Sample.world_rejecting
           Sample.paging_handler sample_platform_laws Sample.alarm_doc
           (lit Sample.alarm_doc) (lit Sample.alarm_doc) Sample.alarm_root
           Sample.alarm_info Sample.motion_event (lit "TRUE") 500%N []);
    try reflexivity.
  discriminate.
Defined.

(** ** Buffers that page nobody *)

Section Quiet.

Variable P : platform.
Variable W : world.
Variable self : ProvisionISRHandler.

(** A raw buffer whose documents all parse and none of which is an alarm
    message (heartbeats, unknown messages, or no document at all) is
    acknowledged and has no other effect. *)
Theorem non_alarm_buffer_is_acknowledged (data : bytes) (decoded : str) (tr : trace) :
  String.prefix "POST" data = false ->
  utf8_decode P data = Ok decoded ->
  Forall (parses_to_non_alarm P) (split_xml_documents decoded) ->
  drain_ok W (writes tr) = true ->
  process_request P W self data tr = (Ok tt, tr ++ [EvWrite OK_RESPONSE]).
Proof.
  intros Hraw Hdec Hall Hdrain. unfold process_request, try_except.
  rewrite (request_body_raw P W self data tr Hraw Hdec).
  rewrite (process_documents_non_alarm W self tr Hall).
  unfold send_response. now rewrite Hdrain.
Qed.

(** A buffer that is not valid UTF-8, in either framing, is answered with
    <error>Internal Server Error</error> and has no other effect. *)
Theorem undecodable_buffer_reply (data : bytes) (tr : trace) :
  utf8_decode P data = Raise UnicodeDecodeError ->
  snd (process_request P W self data tr) = tr ++ [EvWrite INTERNAL_ERROR].
Proof.
  intros Hdec. rewrite process_request_trace. unfold request_body.
  destruct (String.prefix "POST" data).
  - unfold handle_http_post, parse_http_post, bind, lift. now rewrite Hdec.
  - unfold bind, lift. now rewrite Hdec.
Qed.

End Quiet.

Lemma non_alarm_buffer_is_acknowledged_witness :
  process_request Sample.platform0 (Sample.world_at Sample.noon) Sample.day_handler
    Sample.heartbeat_doc [] = (Ok tt, [] ++ [EvWrite OK_RESPONSE]).
Proof.
  apply (@non_alarm_buffer_is_acknowledged Sample.platform0 (Sample.world_at Sample.noon)
           Sample.day_handler Sample.heartbeat_doc (lit Sample.heartbeat_doc) []);
    try reflexivity.
  constructor; [|constructor].
  exists Sample.heartbeat_root. split; [reflexivity | vm_compute; discriminate].
Defined.

Lemma undecodable_buffer_reply_witness :
  snd (process_request Sample.platform0 (Sample.world_at Sample.noon) Sample.day_handler
         Sample.undecodable []) = [] ++ [EvWrite INTERNAL_ERROR].
Proof.
  apply (@undecodable_buffer_reply Sample.platform0 (Sample.world_at Sample.noon)
           Sample.day_handler Sample.undecodable []).
  reflexivity.
Defined.

(** ** HTTP framing *)

Lemma str_find_spec (needle s : str) (i : nat) :
  str_find needle s = Some i ->
  exists v, s = firstn i s ++ needle ++ v /\ skipn (i + length needle) s = v.
Proof.
  revert i. induction s as [|c s IH]; intros i H; rewrite str_find_unfold in H.
  - destruct (startswith needle []) eqn:E; [|discriminate].
    inversion H; subst. apply startswith_iff in E. destruct E as [v Hv].
    exists v. cbn [firstn app Nat.add]. split; [exact Hv|].
    rewrite Hv at 1. apply skipn_exact.
  - destruct (startswith needle (c :: s)) eqn:E.
    + inversion H; subst. apply startswith_iff in E. destruct E as [v Hv].
      exists v. cbn [firstn app Nat.add]. split; [exact Hv|].
      rewrite Hv at 1. apply skipn_exact.
    + destruct (str_find needle s) as [j|] eqn:F; [|discriminate].
      inversion H; subst. destruct (IH j eq_refl) as (v & Hs & Hv).
      exists v. cbn [firstn skipn Nat.add app]. split; [now rewrite <- Hs | exact Hv].
Qed.





Lemma str_eqb_sym (a b : str) : str_eqb a b = str_eqb b a.
Proof.
  destruct (str_eqb a b) eqn:E.
  - apply str_eqb_eq in E. subst. symmetry. apply str_eqb_refl.
  - destruct (str_eqb b a) eqn:E'; [|reflexivity].
    apply str_eqb_eq in E'. subst. now rewrite str_eqb_refl in E.
Qed.

Lemma dict_get_set {V} (k k' : str) (v : V) (d : dict V) :
  dict_get k (dict_set k' v d) = if str_eqb k k' then Some v else dict_get k d.
Proof.
  induction d as [|[k0 v0] d IH]; cbn [dict_set dict_get]; [reflexivity|].
  destruct (str_eqb k' k0) eqn:E; cbn [dict_get].
  - apply str_eqb_eq in E. subst k0. now destruct (str_eqb k k').
  - rewrite IH. destruct (str_eqb k k0) eqn:E0; [|reflexivity].
    apply str_eqb_eq in E0. subst k0. rewrite str_eqb_sym in E. now rewrite E.
Qed.

Lemma find_last {A} (f : A -> bool) (l : list A) (x : A) :
  List.find f (l ++ [x]) =
  match List.find f l with Some y => Some y | None => if f x then Some x else None end.
Proof.
  induction l as [|a l IH]; simpl; [reflexivity|]. now destruct (f a).
Qed.

Lemma dict_get_fold {V} (k : str) (l : list (str * V)) (d : dict V) :
  dict_get k (fold_left (fun d kv => dict_set (fst kv) (snd kv) d) l d) =
  match List.find (fun kv => str_eqb k (fst kv)) (rev l) with
  | Some kv => Some (snd kv)
  | None => dict_get k d
  end.
Proof.
  revert d. induction l as [|x l IH]; intros d; [reflexivity|].
  cbn [fold_left rev]. rewrite IH, find_last, dict_get_set.
  destruct (List.find _ (rev l)); [reflexivity|]. now destruct (str_eqb k (fst x)).
Qed.

Lemma find_map {A B} (f : B -> bool) (g : A -> B) (l : list A) :
  List.find f (map g l) = option_map g (List.find (fun a => f (g a)) l).
Proof.
  induction l as [|a l IH]; simpl; [reflexivity|]. now destruct (f (g a)).
Qed.

Section Http.

Variable P : platform.
Variable W : world.
Variable self : ProvisionISRHandler.


(** A POST without a blank line after its headers is answered with
    <error>Internal Server Error</error> and has no other effect. *)
Theorem post_without_blank_line_reply (data : bytes) (request : str) (tr : trace) :
  String.prefix "POST" data = true ->
  utf8_decode P data = Ok request ->
  str_in crlf2 request = false ->
  snd (process_request P W self data tr) = tr ++ [EvWrite INTERNAL_ERROR].
Proof.
  intros Hpost Hdec Hnone. rewrite process_request_trace. unfold request_body.
  rewrite Hpost. unfold handle_http_post, parse_http_post, bind, lift, split_once.
  rewrite Hdec. unfold str_in in Hnone.
  destruct (str_find crlf2 request); [discriminate | reflexivity].
Qed.

(** A POST whose path contains "SendKeepalive" has no effect at all: no
    response is written, and its body is not looked at even when the path
    also contains "SendAlarmData". *)
Theorem keepalive_post_has_no_effect (data : bytes) (headers : dict str) (body : str)
    (tr : trace) :
  String.prefix "POST" data = true ->
  parse_http_post P data = Ok (headers, body) ->
  str_in (lit "SendKeepalive") (path_of headers) = true ->
  process_request P W self data tr = (Ok tt, tr).
Proof.
  intros Hpost Hparse Hk. unfold process_request, try_except, request_body.
  rewrite Hpost. unfold handle_http_post, bind, lift. now rewrite Hparse, Hk.
Qed.

Lemma handle_http_post_alarm (data : bytes) (headers : dict str) (body : str) (tr : trace) :
  String.prefix "POST" data = true ->
  parse_http_post P data = Ok (headers, body) ->
  str_in (lit "SendKeepalive") (path_of headers) = false ->
  str_in (lit "SendAlarmData") (path_of headers) = true ->
  request_body P W self data tr = handle_http_alarm P W self body tr.
Proof.
  intros Hpost Hparse Hk Ha. unfold request_body. rewrite Hpost.
  unfold handle_http_post, bind, lift. now rewrite Hparse, Hk, Ha.
Qed.

(** An alarm POST whose body is not well-formed XML is dropped silently:
    the handler returns normally, nothing is written to the peer and no
    request goes out. *)
Theorem alarm_post_with_malformed_body (data : bytes) (headers : dict str) (body : str)
    (tr : trace) :
  String.prefix "POST" data = true ->
  parse_http_post P data = Ok (headers, body) ->
  str_in (lit "SendKeepalive") (path_of headers) = false ->
  str_in (lit "SendAlarmData") (path_of headers) = true ->
  fromstring P body = Raise ParseError ->
  process_request P W self data tr = (Ok tt, tr).
Proof.
  intros Hpost Hparse Hk Ha Hbad. unfold process_request, try_except.
  rewrite (handle_http_post_alarm _ tr Hpost Hparse Hk Ha).
  unfold handle_http_alarm, try_except, bind, lift. now rewrite Hbad.
Qed.

(** An alarm POST whose body parses but lacks one of the elements
    [smartType], [mac], [sn] and [deviceName] is answered with
    <error>Internal Server Error</error>; the clock is not read and no
    request goes out. *)
Theorem alarm_post_with_missing_element (data : bytes) (headers : dict str) (body : str)
    (xml_root : Element) (tr : trace) :
  String.prefix "POST" data = true ->
  parse_http_post P data = Ok (headers, body) ->
  str_in (lit "SendKeepalive") (path_of headers) = false ->
  str_in (lit "SendAlarmData") (path_of headers) = true ->
  fromstring P body = Ok xml_root ->
  ~ (has_element xml_root "smartType" /\ has_element xml_root "mac" /\
     has_element xml_root "sn" /\ has_element xml_root "deviceName") ->
  snd (process_request P W self data tr) = tr ++ [EvWrite INTERNAL_ERROR].
Proof.
  intros Hpost Hparse Hk Ha Hroot Hmiss. rewrite process_request_trace.
  rewrite (handle_http_post_alarm _ tr Hpost Hparse Hk Ha).
  unfold handle_http_alarm, try_except, bind, lift. rewrite Hroot.
  unfold has_element in Hmiss.
  destruct (find (lit "smartType") xml_root) as [st|] eqn:F1; [|reflexivity].
  cbn [text_of_found]. unfold extract_http_device_info.
  destruct (find (lit "mac") xml_root) as [m|] eqn:F2; [|reflexivity].
  destruct (find (lit "sn") xml_root) as [n|] eqn:F3; [|reflexivity].
  destruct (find (lit "deviceName") xml_root) as [d|] eqn:F4; [|reflexivity].
  exfalso. apply Hmiss. repeat split; apply find_some_iff; eauto.
Qed.

End Http.

Lemma sample_http_platform_laws : platform_laws Sample.platform_http.
Proof.
  split; simpl; intros s; try reflexivity.
  unfold Sample.upper. apply map_eq_nil.
Qed.


Lemma post_without_blank_line_reply_witness :
  snd (process_request Sample.platform_http (Sample.world_at Sample.noon) Sample.day_handler
         Sample.unfinished_request []) = [] ++ [EvWrite INTERNAL_ERROR].
Proof.
  apply (@post_without_blank_line_reply Sample.platform_http (Sample.world_at Sample.noon)
           Sample.day_handler Sample.unfinished_request
           (lit Sample.unfinished_request) []);
    reflexivity.
Defined.

Lemma keepalive_post_has_no_effect_witness :
  process_request Sample.platform_http (Sample.world_at Sample.noon) Sample.day_handler
    Sample.mixed_request [] = (Ok tt, []).
Proof.
  apply (@keepalive_post_has_no_effect Sample.platform_http (Sample.world_at Sample.noon)
           Sample.day_handler Sample.mixed_request
           [(lit "path", lit "/SendKeepalive/SendAlarmData")]
           (lit Sample.http_alarm_body) []);
    reflexivity.
Defined.

Lemma alarm_post_with_malformed_body_witness :
  process_request Sample.platform_http (Sample.world_at Sample.noon) Sample.day_handler
    (Sample.alarm_post Sample.http_broken_body) [] = (Ok tt, []).
Proof.
  apply (@alarm_post_with_malformed_body Sample.platform_http (Sample.world_at Sample.noon)
           Sample.day_handler (Sample.alarm_post Sample.http_broken_body)
           Sample.alarm_headers (lit Sample.http_broken_body) []);
    reflexivity.
Defined.

Lemma alarm_post_with_missing_element_witness :
  snd (process_request Sample.platform_http (Sample.world_at Sample.noon) Sample.day_handler
         (Sample.alarm_post Sample.http_partial_body) []) = [] ++ [EvWrite INTERNAL_ERROR].
Proof.
  apply (@alarm_post_with_missing_element Sample.platform_http (Sample.world_at Sample.noon)
           Sample.day_handler (Sample.alarm_post Sample.http_partial_body)
           Sample.alarm_headers (lit Sample.http_partial_body) Sample.http_partial_root []);
    try reflexivity.
  intros (_ & _ & Hsn & _). apply find_some_iff in Hsn. destruct Hsn as [e He].
  vm_compute in He. discriminate.
Defined.

(** ** Alarms that arrive over HTTP *)

Section HttpAlarm.

Variable P : platform.
Variable W : world.
Variable self : ProvisionISRHandler.

Lemma process_http_alarm_unlisted (smart_type : str) (xml_root : Element)
    (device_info : dict (option str)) (tr : trace) :
  list_in (str_upper P smart_type) (pagerduty_alert_types self) = false ->
  process_http_alarm P W self (Some smart_type) xml_root device_info tr =
  (Ok tt, tr ++ [EvNow ByHandler (clock W (count is_now tr))]).
Proof.
  intros L. unfold process_http_alarm, bind, get_current_israel_time, now. now rewrite L.
Qed.

Lemma process_http_alarm_listed (smart_type : str) (xml_root : Element)
    (device_info : dict (option str)) (tr : trace) :
  list_in (str_upper P smart_type) (pagerduty_alert_types self) = true ->
  exists title details,
    process_http_alarm P W self (Some smart_type) xml_root device_info tr =
    trigger_incident W (pagerduty_trigger self) title details high
      (tr ++ [EvNow ByHandler (clock W (count is_now tr))]).
Proof.
  intros L. unfold process_http_alarm, bind, get_current_israel_time, now. rewrite L.
  eexists _, _. reflexivity.
Qed.

(** With a sender address configured and a paging service that answers,
    an alarm POST whose body carries the smart type and the three device
    fields never gets a response.  It issues one outbound request when the
    upper-cased smart type is on the allow-list and the time the gate reads
    is inside the window, and none otherwise. *)
Theorem alarm_post_dispatch (data : bytes) (headers : dict str) (body : str)
    (xml_root type_element : Element) (smart_type : str) (answer : N) (tr : trace) :
  from_email (pagerduty_trigger self) <> None ->
  String.prefix "POST" data = true ->
  parse_http_post P data = Ok (headers, body) ->
  str_in (lit "SendKeepalive") (path_of headers) = false ->
  str_in (lit "SendAlarmData") (path_of headers) = true ->
  fromstring P body = Ok xml_root ->
  find (lit "smartType") xml_root = Some type_element ->
  text type_element = Some smart_type ->
  has_element xml_root "mac" -> has_element xml_root "sn" ->
  has_element xml_root "deviceName" ->
  paging_service W (posts tr) = Responded answer ->
  let listed := list_in (str_upper P smart_type) (pagerduty_alert_types self) in
  let inside := is_paging_time_at (pagerduty_trigger self)
                  (time_of (clock W (S (count is_now tr)))) in
  let after := process_request P W self data tr in
  fst after = Ok tt /\
  writes (snd after) = writes tr /\
  posts (snd after) = posts tr + (if listed && inside then 1 else 0).
Proof.
  intros Hfrom Hpost Hparse Hk Ha Hroot Htype Htext Hmac Hsn Hname Hans listed inside after.
  destruct (from_email (pagerduty_trigger self)) as [sender|] eqn:Hsender;
    [clear Hfrom | now elim Hfrom].
  apply find_some_iff in Hmac, Hsn, Hname.
  destruct Hmac as [m Hm], Hsn as [n Hn], Hname as [d Hd].
  assert (Hnow : count is_now (tr ++ [EvNow ByHandler (clock W (count is_now tr))])
                 = S (count is_now tr)) by (rewrite count_snoc; simpl; lia).
  assert (Hbody : request_body P W self data tr =
                  process_http_alarm P W self (Some smart_type) xml_root
                    [(lit "mac", text m); (lit "sn", text n); (lit "deviceName", text d)] tr).
  { rewrite (handle_http_post_alarm P W self data tr Hpost Hparse Hk Ha).
    unfold handle_http_alarm, try_except, bind, lift. rewrite Hroot, Htype.
    cbn [text_of_found]. rewrite Htext. unfold extract_http_device_info.
    rewrite Hm, Hn, Hd. cbn [text_of_found].
    destruct (process_http_alarm _ _ _ _ _ _ tr) as [[[]|e] tr1] eqn:E; [reflexivity|].
    destruct e; try reflexivity.
    exfalso. revert E. unfold listed in *.
    destruct (list_in (str_upper P smart_type) (pagerduty_alert_types self)) eqn:L.
    - destruct (process_http_alarm_listed smart_type xml_root
                  [(lit "mac", text m); (lit "sn", text n); (lit "deviceName", text d)] tr L)
        as (title & details & ->).
      destruct (is_paging_time_at (pagerduty_trigger self)
                  (time_of (clock W (S (count is_now tr))))) eqn:G.
      + rewrite (trigger_incident_run_inside W) by (now rewrite Hnow).
        rewrite posts_snoc_now, Hans, Hsender. discriminate.
      + rewrite trigger_incident_outside by (now rewrite Hnow). discriminate.
    - rewrite (process_http_alarm_unlisted _ _ _ tr L). discriminate. }
  unfold after, process_request, try_except. rewrite Hbody. unfold listed, inside.
  destruct (list_in (str_upper P smart_type) (pagerduty_alert_types self)) eqn:L.
  - destruct (process_http_alarm_listed smart_type xml_root
                [(lit "mac", text m); (lit "sn", text n); (lit "deviceName", text d)] tr L)
      as (title & details & ->).
    destruct (is_paging_time_at (pagerduty_trigger self)
                (time_of (clock W (S (count is_now tr))))) eqn:G.
    + rewrite (trigger_incident_run_inside W) by (now rewrite Hnow).
      rewrite posts_snoc_now, Hans, Hsender. cbn [outcome_result fst snd andb].
      repeat split; unfold writes, posts; rewrite ?count_app; unfold count; simpl; lia.
    + rewrite trigger_incident_outside by (now rewrite Hnow). cbn [fst snd andb].
      repeat split; unfold writes, posts; rewrite ?count_app; unfold count; simpl; lia.
  - rewrite (process_http_alarm_unlisted _ _ _ tr L). cbn [fst snd andb].
    repeat split; unfold writes, posts; rewrite ?count_app; unfold count; simpl; lia.
Qed.

(** [extract_http_device_info] succeeds exactly when the document has the
    three elements [mac], [sn] and [deviceName]; it then holds exactly these
    three keys, and otherwise it raises [AttributeError]. *)
Theorem extract_http_device_info_spec (xml_root : Element) :
  (has_element xml_root "mac" /\ has_element xml_root "sn" /\
   has_element xml_root "deviceName" ->
   exists mac sn deviceName,
     extract_http_device_info xml_root =
       Ok [(lit "mac", mac); (lit "sn", sn); (lit "deviceName", deviceName)]) /\
  (~ (has_element xml_root "mac" /\ has_element xml_root "sn" /\
      has_element xml_root "deviceName") ->
   extract_http_device_info xml_root = Raise AttributeError).
Proof.
  unfold has_element, extract_http_device_info. split.
  - intros (Hm & Hn & Hd). apply find_some_iff in Hm, Hn, Hd.
    destruct Hm as [m ->], Hn as [n ->], Hd as [d ->]. cbn [text_of_found]. eauto.
  - intros Hmiss.
    destruct (find (lit "mac") xml_root) as [m|] eqn:F2; [|reflexivity].
    destruct (find (lit "sn") xml_root) as [n|] eqn:F3; [|reflexivity].
    destruct (find (lit "deviceName") xml_root) as [d|] eqn:F4; [|reflexivity].
    exfalso. apply Hmiss. repeat split; apply find_some_iff; eauto.
Qed.

End HttpAlarm.

Lemma alarm_post_dispatch_witness :
  posts (snd (process_request Sample.platform_http (Sample.world_at Sample.noon)
                Sample.paging_handler (Sample.alarm_post Sample.http_alarm_body) []))
  = posts [] + 1.
Proof.
  apply (@alarm_post_dispatch Sample.platform_http (Sample.world_at Sample.noon)
           Sample.paging_handler (Sample.alarm_post Sample.http_alarm_body)
           Sample.alarm_headers (lit Sample.http_alarm_body) Sample.http_alarm_root
           (Sample.leaf "smartType" [] (Some "motionAlarm"%string)) (lit "motionAlarm")
           201%N []);
    try reflexivity.
  - discriminate.
  - apply find_some_iff. eexists. reflexivity.
  - apply find_some_iff. eexists. reflexivity.
  - apply find_some_iff. eexists. reflexivity.
Defined.

(** ** Device information *)

(** Without a [DeviceInfo] element the device information is empty.
    Otherwise the value kept for a field name is the text of the last child
    of [DeviceInfo] with that tag, and names that are no child's tag are
    absent. *)
Theorem extract_device_info_lookup (xml_root : Element) :
  (find (lit "DeviceInfo") xml_root = None -> extract_device_info xml_root = []) /\
  (forall device_info field,
     find (lit "DeviceInfo") xml_root = Some device_info ->
     dict_get field (extract_device_info xml_root) =
     option_map text
       (List.find (fun child => str_eqb field (tag child)) (rev (children device_info)))).
Proof.
  unfold extract_device_info. split.
  - now intros ->.
  - intros device_info field ->. unfold dict_of_pairs.
    rewrite dict_get_fold, <- map_rev, find_map. cbn [fst].
    now destruct (List.find _ (rev (children device_info))).
Qed.

(** ** More on the document splitter *)

Lemma closes_once_close : closes_once config_close.
Proof.
  intros u v H. apply (f_equal (@length _)) in H. rewrite !length_app in H.
  destruct v; [reflexivity|]. simpl in H. lia.
Qed.

Lemma until_close_sound (s m r : str) :
  until_close s = Some (m, r) ->
  s = m ++ r /\ (exists body, m = body ++ config_close) /\ closes_once m.
Proof.
  revert m r. induction s as [|c s IH]; intros m r H; rewrite until_close_unfold in H.
  - discriminate.
  - destruct (startswith config_close (c :: s)) eqn:E.
    + assert (Hm : m = config_close) by congruence.
      assert (Hr : r = skipn (length config_close) (c :: s)) by congruence.
      apply startswith_iff in E. destruct E as [v Hv].
      rewrite Hr, Hm, Hv, skipn_exact. split; [reflexivity|].
      split; [now exists [] | apply closes_once_close].
    + destruct (until_close s) as [[m' r']|] eqn:U; [|discriminate].
      assert (Hm : m = c :: m') by congruence. assert (Hr : r = r') by congruence.
      subst m r. destruct (IH _ _ eq_refl) as (Hs & [body Hb] & Honce).
      split; [now rewrite Hs|]. split; [exists (c :: body); now rewrite Hb|].
      intros u v Huv. destruct u as [|x u].
      * exfalso. cbn [app] in Huv.
        assert (Hpre : startswith config_close (c :: s) = true).
        { apply startswith_iff. exists (v ++ r'). rewrite Hs.
          change (c :: m' ++ r') with ((c :: m') ++ r'). rewrite Huv.
          now rewrite <- !app_assoc. }
        congruence.
      * cbn [app] in Huv. inversion Huv; subst. now apply (Honce u v).
Qed.

(** Every document the splitter returns begins with the declaration, ends
    with the closing tag and holds the text of the closing tag nowhere
    else after the declaration; and the documents lie in the buffer in the
    order returned, without overlap. *)
Theorem split_xml_documents_sound (data : str) :
  Forall (fun d => exists body,
            d = xml_decl ++ body ++ config_close /\ closes_once (body ++ config_close))
         (split_xml_documents data) /\
  in_order (split_xml_documents data) data.
Proof.
  unfold split_xml_documents. generalize (length data) as fuel. intros fuel.
  revert data. induction fuel as [|fuel IH]; intros data.
  - split; constructor.
  - cbn [findall_documents].
    destruct (str_find xml_decl data) as [i|] eqn:F; [|split; constructor].
    destruct (until_close (skipn (i + length xml_decl) data)) as [[m r]|] eqn:U;
      [|split; constructor].
    destruct (str_find_spec _ _ F) as (v & Hdata & Hv).
    destruct (until_close_sound _ U) as (Hs & [body Hb] & Honce).
    destruct (IH r) as [Hall Hord]. split.
    + constructor; [|exact Hall]. exists body. now rewrite <- Hb.
    + rewrite Hdata, <- Hv, Hs.
      replace (xml_decl ++ m ++ r) with ((xml_decl ++ m) ++ r) by now rewrite <- app_assoc.
      now constructor.
Qed.

Lemma split_xml_documents_cons (d rest : str) :
  config_document d -> closes_once d ->
  split_xml_documents (d ++ rest) = d :: split_xml_documents rest.
Proof.
  intros [body ->] Honce. unfold split_xml_documents.
  replace ((xml_decl ++ body ++ config_close) ++ rest)
    with (xml_decl ++ body ++ config_close ++ rest) by now rewrite <- !app_assoc.
  remember (length (xml_decl ++ body ++ config_close ++ rest)) as fuel eqn:Hfuel.
  rewrite !length_app in Hfuel. change (length xml_decl) with 5 in Hfuel.
  destruct fuel as [|fuel]; [lia|].
  rewrite (findall_documents_step fuel body rest Honce). f_equal.
  apply findall_documents_fuel; lia.
Qed.

(** Any number of concatenated documents, each beginning with the
    declaration, ending with the closing tag and holding the text of the
    closing tag nowhere else, is split into exactly these documents. *)
Theorem split_concatenated_documents (docs : list str) :
  Forall (fun d => config_document d /\ closes_once d) docs ->
  split_xml_documents (concat docs) = docs.
Proof.
  induction 1 as [|d docs [Hd Honce] _ IH]; [reflexivity|].
  cbn [concat]. now rewrite (split_xml_documents_cons _ Hd Honce), IH.
Qed.

Lemma split_concatenated_documents_witness :
  split_xml_documents
    (concat [lit Sample.plain_doc; lit Sample.plain_doc; lit Sample.plain_doc]) =
  [lit Sample.plain_doc; lit Sample.plain_doc; lit Sample.plain_doc].
Proof.
  assert (Hd : config_document (lit Sample.plain_doc))
    by (exists (lit " version='1.0'?><config>b"); reflexivity).
  apply (@split_concatenated_documents
           [lit Sample.plain_doc; lit Sample.plain_doc; lit Sample.plain_doc]).
  repeat constructor; first [exact Hd | exact sample_plain_closes_once].
Defined.

(** ** The connection in any world *)

Lemma quiet_added (added : trace) :
  forallb quiet_event added = true ->
  forallb not_close added = true /\ writes added = 0.
Proof.
  induction added as [|e added IH]; [now split|].
  cbn [forallb]. rewrite andb_true_iff. intros [He Hrest].
  destruct (IH Hrest) as [Hc Hw]. unfold writes, count in *.
  destruct e; try discriminate; cbn; now rewrite ?Hc.
Qed.

Section AnyWorld.

Variable P : platform.
Variable W : world.
Variable self : ProvisionISRHandler.

Lemma request_body_shape (data : bytes) (tr : trace) :
  exists added,
    snd (request_body P W self data tr) = tr ++ added /\
    forallb not_close added = true /\ writes added <= 1.
Proof.
  assert (Hnone : exists added, tr = tr ++ added /\
                    forallb not_close added = true /\ writes added <= 1).
  { exists []. rewrite app_nil_r. repeat split. unfold writes, count. simpl. lia. }
  assert (Hone : forall content added0,
            forallb quiet_event added0 = true ->
            exists added,
              snd (send_response W content (tr ++ added0)) = tr ++ added /\
              forallb not_close added = true /\ writes added <= 1).
  { intros content added0 Hq. destruct (quiet_added _ Hq) as [Hc Hw].
    exists (added0 ++ [EvWrite content]). rewrite send_response_trace, app_assoc.
    split; [reflexivity|]. rewrite forallb_app, Hc. split; [reflexivity|].
    unfold writes in *. rewrite count_app, Hw. unfold count. simpl. lia. }
  unfold request_body. destruct (String.prefix "POST" data).
  - unfold handle_http_post, bind, lift.
    destruct (parse_http_post P data) as [[headers body]|e]; [|exact Hnone].
    destruct (str_in (lit "SendKeepalive") (path_of headers)); [exact Hnone|].
    destruct (str_in (lit "SendAlarmData") (path_of headers)).
    + destruct (only_handle_http_alarm P W self quiet_event
                  (fun _ _ => eq_refl) (fun _ => eq_refl) body tr) as (added & -> & Hq).
      destruct (quiet_added _ Hq) as [Hc Hw]. exists added. rewrite Hw. auto.
    + specialize (Hone "<error>Unknown HTTP POST request</error>"%string [] eq_refl).
      now rewrite app_nil_r in Hone.
  - unfold bind at 1, lift. destruct (utf8_decode P data) as [decoded|e]; [|exact Hnone].
    unfold bind.
    destruct (only_process_documents P W self quiet_event
                (fun _ _ => eq_refl) (fun _ => eq_refl) (split_xml_documents decoded) tr)
      as (added & Hadded & Hq).
    destruct (process_documents _ _ _ _ tr) as [[[]|e] tr1]; cbn [snd] in Hadded; subst tr1.
    + now apply Hone.
    + destruct (quiet_added _ Hq) as [Hc Hw]. exists added. rewrite Hw. auto.
Qed.

(** From the point where the read has returned to the call that closes
    the connection, in every world and on every input: [handle_client]
    writes at most two payloads.  Either it reaches the closing call, which
    it makes once and as its last act, or an exception leaves it with the
    connection not closed; and that happens only when the last thing done
    was a write whose drain failed. *)
Theorem handle_client_in_any_world (data : bytes) (tr : trace) :
  exists added,
    forallb not_close added = true /\ writes added <= 2 /\
    ((fst (handle_client P W self data tr) = Ok tt /\
      snd (handle_client P W self data tr) = tr ++ added ++ [EvClose]) \/
     ((exists e, fst (handle_client P W self data tr) = Raise e) /\
      snd (handle_client P W self data tr) = tr ++ added /\
      exists before content,
        added = before ++ [EvWrite content] /\
        drain_ok W (writes (tr ++ before)) = false)).
Proof.
  unfold handle_client, bind, emit. destruct (String.eqb data "").
  - exists []. split; [reflexivity|]. split; [unfold writes, count; simpl; lia|].
    left. split; reflexivity.
  - unfold process_request, try_except.
    destruct (request_body_shape data tr) as (added & Hadded & Hc & Hw).
    destruct (request_body P W self data tr) as [[[]|e] tr1]; cbn [snd] in Hadded; subst tr1.
    + exists added. split; [exact Hc|]. split; [lia|]. left.
      cbn [fst snd]. now rewrite <- app_assoc.
    + assert (Hsend : exists content,
                match e with
                | ParseError => Some (send_response W INVALID_XML)
                | _ => Some (send_response W INTERNAL_ERROR)
                end = Some (send_response W content))
        by (destruct e; eexists; reflexivity).
      destruct Hsend as [content ->].
      exists (added ++ [EvWrite content]).
      split; [now rewrite forallb_app, Hc|].
      split; [unfold writes in *; rewrite count_app; unfold count at 2; simpl; lia|].
      unfold send_response.
      destruct (drain_ok W (writes (tr ++ added))) eqn:Hdrain; cbn [fst snd].
      * left. split; [reflexivity|]. now rewrite <- !app_assoc.
      * right. split; [eexists; reflexivity|]. split; [now rewrite <- !app_assoc|].
        exists added, content. split; [reflexivity | exact Hdrain].
Qed.

End AnyWorld.

(** ** What an outbound request carries *)

Lemma opt_eqb_refl (a : option str) : opt_eqb a a = true.
Proof. destruct a; [apply str_eqb_refl | reflexivity]. Qed.

Section Requests.

Variable P : platform.
Variable W : world.
Variable self : ProvisionISRHandler.

Let p := from_trigger (pagerduty_trigger self).

Lemma from_trigger_request (title : str) (details : incident_details) :
  p (EvPost (request_of (pagerduty_trigger self) title details high)) = true.
Proof.
  unfold p, from_trigger, request_of. cbn.
  now rewrite !str_eqb_refl, !opt_eqb_refl.
Qed.

Lemma from_trigger_now (who : clock_owner) (t : datetime) : p (EvNow who t) = true.
Proof. reflexivity. Qed.

Lemma from_trigger_incident (title : str) (details : incident_details) :
  only p (trigger_incident W (pagerduty_trigger self) title details high).
Proof.
  intros tr.
  destruct (is_paging_time_at (pagerduty_trigger self)
              (time_of (clock W (count is_now tr)))) eqn:G.
  - rewrite (trigger_incident_inside _ _ _ _ _ _ G). eexists. split; [reflexivity|].
    cbn [forallb]. now rewrite from_trigger_request.
  - rewrite (trigger_incident_outside _ _ _ _ _ _ G). eexists. split; reflexivity.
Qed.

Lemma from_trigger_process_alarm alarm_type alarm_id alarm_name device_info :
  only p (process_alarm P W self alarm_type alarm_id alarm_name device_info).
Proof.
  unfold process_alarm. apply only_bind; [apply only_now, from_trigger_now|]. intros t.
  destruct (list_in _ _); [apply from_trigger_incident | apply only_ret].
Qed.

Lemma from_trigger_process_http_alarm smart_type xml_root device_info :
  only p (process_http_alarm P W self smart_type xml_root device_info).
Proof.
  unfold process_http_alarm. apply only_bind; [apply only_now, from_trigger_now|]. intros t.
  destruct smart_type as [smart_type|]; [|apply only_raise].
  destruct (list_in _ _); [apply from_trigger_incident | apply only_ret].
Qed.

Lemma from_trigger_alarm_loop device_info (alarms : list Element)
    (alarm_tasks tasks : list (io unit)) :
  Forall (only p) alarm_tasks ->
  alarm_loop P W self device_info alarms alarm_tasks = Ok tasks ->
  Forall (only p) tasks.
Proof.
  revert alarm_tasks. induction alarms as [|a alarms IH]; intros alarm_tasks Hacc Hloop.
  - cbn [alarm_loop] in Hloop. now inversion Hloop; subst.
  - cbn [alarm_loop] in Hloop. destruct (text a) as [t|]; [|discriminate].
    destruct (str_eqb _ _); [|now apply (IH alarm_tasks)].
    refine (IH _ _ Hloop). apply Forall_app. split; [exact Hacc|].
    constructor; [apply from_trigger_process_alarm | constructor].
Qed.

Lemma from_trigger_handle_alarm (xml_root : Element) :
  only p (handle_alarm P W self xml_root).
Proof.
  unfold handle_alarm. destruct (find _ xml_root) as [alarm_info|]; [|apply only_raise].
  intros tr. unfold bind, lift.
  destruct (alarm_loop _ _ _ _ _ _) as [tasks|e] eqn:L.
  - apply only_gather. now apply (from_trigger_alarm_loop _ _ (Forall_nil _) L).
  - exists []. now rewrite app_nil_r.
Qed.

Lemma from_trigger_process_documents (xml_documents : list str) :
  only p (process_documents P W self xml_documents).
Proof.
  induction xml_documents as [|d rest IH]; [apply only_ret|].
  cbn [process_documents]. apply only_bind; [apply only_lift|]. intros xml_root.
  apply only_bind; [|intros _; exact IH].
  destruct (str_eqb _ _); [apply only_ret|].
  destruct (str_eqb _ _); [apply from_trigger_handle_alarm | apply only_ret].
Qed.

Lemma from_trigger_send_response (content : bytes) : only p (send_response W content).
Proof. intros tr. rewrite send_response_trace. eexists. split; reflexivity. Qed.

Lemma from_trigger_process_request (data : bytes) : only p (process_request P W self data).
Proof.
  unfold process_request. apply only_try_except.
  - unfold request_body. destruct (String.prefix "POST" data).
    + unfold handle_http_post. apply only_bind; [apply only_lift|].
      intros [headers body].
      destruct (str_in _ _); [apply only_ret|].
      destruct (str_in _ _); [|apply from_trigger_send_response].
      unfold handle_http_alarm. apply only_try_except.
      * apply only_bind; [apply only_lift|]. intros xml_root.
        apply only_bind; [apply only_lift|]. intros smart_type.
        apply only_bind; [apply only_lift|]. intros device_info.
        apply from_trigger_process_http_alarm.
      * intros e h Hh. destruct e; inversion Hh; apply only_ret.
    + apply only_bind; [apply only_lift|]. intros decoded.
      apply only_bind; [apply from_trigger_process_documents|]. intros _.
      apply from_trigger_send_response.
  - intros e h Hh. destruct e; inversion Hh; apply from_trigger_send_response.
Qed.

(** Whatever arrives on a connection, every outbound request the handler
    issues goes to the trigger's endpoint with the trigger's token, sender
    and service identifier, and with urgency "high". *)
Theorem requests_carry_configuration (data : bytes) (tr : trace) :
  exists added,
    snd (handle_client P W self data tr) = tr ++ added /\
    forall req, In (EvPost req) added ->
      req_url req = url (pagerduty_trigger self) /\
      req_token req = api_token (pagerduty_trigger self) /\
      req_from req = from_email (pagerduty_trigger self) /\
      req_service req = service_id (pagerduty_trigger self) /\
      req_urgency req = high.
Proof.
  assert (Hopt : forall a b, opt_eqb a b = true -> a = b).
  { intros [a|] [b|] H; try discriminate; [|reflexivity].
    apply str_eqb_eq in H. now subst. }
  assert (Hp : forall added, forallb p added = true ->
            forall req, In (EvPost req) added ->
              req_url req = url (pagerduty_trigger self) /\
              req_token req = api_token (pagerduty_trigger self) /\
              req_from req = from_email (pagerduty_trigger self) /\
              req_service req = service_id (pagerduty_trigger self) /\
              req_urgency req = high).
  { intros added Hall req Hin. rewrite forallb_forall in Hall.
    specialize (Hall _ Hin). unfold p, from_trigger in Hall.
    rewrite !andb_true_iff in Hall. destruct Hall as [[[[H1 H2] H3] H4] H5].
    apply str_eqb_eq in H1, H5. apply Hopt in H2, H3, H4. auto. }
  unfold handle_client, bind, emit. destruct (String.eqb data "").
  - exists [EvClose]. split; [reflexivity|]. apply Hp. reflexivity.
  - destruct (from_trigger_process_request data tr) as (added & Hadded & Hall).
    destruct (process_request P W self data tr) as [[[]|e] tr1]; cbn [snd] in *; subst tr1.
    + exists (added ++ [EvClose]). split; [now rewrite app_assoc|].
      apply Hp. now rewrite forallb_app, Hall.
    + exists added. split; [reflexivity | now apply Hp].
Qed.

End Requests.

(** ** Buffers without a document *)

Lemma str_find_none_cons (p : str) (c : codepoint) (s : str) :
  str_find p (c :: s) = None -> str_find p s = None.
Proof.
  rewrite str_find_unfold. destruct (startswith p (c :: s)); [discriminate|].
  now destruct (str_find p s).
Qed.

Lemma str_find_none_skipn (p s : str) (n : nat) :
  str_find p s = None -> str_find p (skipn n s) = None.
Proof.
  revert s. induction n as [|n IH]; intros s H; [exact H|].
  destruct s as [|c s]; [exact H|]. cbn [skipn]. apply IH.
  now apply str_find_none_cons with c.
Qed.

Lemma until_close_none (s : str) :
  str_find config_close s = None -> until_close s = None.
Proof.
  induction s as [|c s IH]; intros H; [reflexivity|].
  rewrite until_close_unfold. rewrite str_find_unfold in H.
  destruct (startswith config_close (c :: s)); [discriminate|].
  rewrite IH; [reflexivity|]. now destruct (str_find config_close s).
Qed.

(** A buffer in which the declaration or the closing tag does not occur
    holds no document: the splitter returns the empty list. *)
Theorem split_without_markers (data : str) :
  str_in xml_decl data = false \/ str_in config_close data = false ->
  split_xml_documents data = [].
Proof.
  unfold str_in, split_xml_documents. intros H.
  destruct (length data) as [|fuel]; [reflexivity|]. cbn [findall_documents].
  destruct (str_find xml_decl data) as [i|] eqn:F; [|reflexivity].
  destruct H as [H | H]; [discriminate|].
  destruct (str_find config_close data) eqn:C; [discriminate|].
  now rewrite (until_close_none _ (@str_find_none_skipn _ _ (i + length xml_decl) C)).
Qed.

Lemma split_without_markers_witness :
  split_xml_documents (lit "<?xml version='1.0'?><config>") = [].
Proof.
  apply (@split_without_markers (lit "<?xml version='1.0'?><config>")).
  right. reflexivity.
Defined.
